(** * A shallow embedding of [rag.py], the retrieval and answer-composition
    backend, together with the properties its specification states.

    Conventions of the embedding.

    - A Python [str] is a sequence of Unicode code points: [str := list N].
      [len] is [length]; the ellipsis marker is the single code point U+2026.
    - A Python [set] of tokens is a [gset str]; a [dict] iterated in a fixed
      order is a list; the documents directory is a [gmap] from file names to
      entries.
    - A Python [float] is an exact rational [Q]. The code only compares
      scores and tests them against zero. For the Jaccard ratios, on the
      magnitudes that can occur (token sets far below 2^26 elements),
      correctly rounded binary64 division is strictly monotone, so the
      comparisons agree; for the sentence scores the statements below rest on
      their sign only.
    - Library calls whose definition is outside the repository are taken as
      section variables: [str.lower], [math.log2], [round], the text splitter
      of LangChain, the FAISS similarity search and the chat model. *)

From Stdlib Require Import ZArith NArith QArith Qround Lia List Sorted String Ascii DecimalString.
From stdpp Require Import base decidable list gmap sets.

#[local] Set Default Proof Using "Type".
#[local] Set Warnings "-clear-no-such-hyp".

Local Open Scope N_scope.
Local Open Scope list_scope.

(** ** Strings *)

Definition str : Type := list N.

(** An ASCII literal of the source as a [str]. *)
Definition py (s : string) : str :=
  List.map N_of_ascii (list_ascii_of_string s).

(** U+2026 HORIZONTAL ELLIPSIS, the one-character string appended on
    truncation. *)
Definition ELLIPSIS : N := 8230.

(** [str.isspace] on one code point, which is also the class [\s] of [re] on
    [str] patterns: the code points Python's Unicode database lists as
    whitespace. *)
Definition is_space (c : N) : bool :=
  ((9 <=? c) && (c <=? 13)) || ((28 <=? c) && (c <=? 32))
  || (c =? 133) || (c =? 160) || (c =? 5760)
  || ((8192 <=? c) && (c <=? 8202))
  || (c =? 8232) || (c =? 8233) || (c =? 8239) || (c =? 8287) || (c =? 12288).

Definition NEWLINE : N := 10.

(** [s.lstrip()], [s.rstrip()] and [s.strip()] without arguments. *)
Fixpoint lstrip (s : str) : str :=
  match s with
  | [] => []
  | c :: s' => if is_space c then lstrip s' else s
  end.

Definition rstrip (s : str) : str := rev (lstrip (rev s)).

Definition strip (s : str) : str := rstrip (lstrip s).

(** [l[:k]] for a Python integer [k]: a negative bound counts from the
    end. *)
Definition slice_to {A} (k : Z) (l : list A) : list A :=
  if (0 <=? k)%Z then take (Z.to_nat k) l
  else take (length l - Z.to_nat (- k))%nat l.

(** [l[k:]] for a natural [k]. *)
Definition slice_from {A} (k : nat) (l : list A) : list A := drop k l.

(** [sep.join(parts)]. *)
Fixpoint join (sep : str) (parts : list str) : str :=
  match parts with
  | [] => []
  | [p] => p
  | p :: rest => p ++ sep ++ join sep rest
  end.

(** ASCII lower-casing, the instance of [str.lower] used in the concrete
    examples: it is [str.lower] on every ASCII string. *)
Definition ascii_lower_char (c : N) : N :=
  if (65 <=? c) && (c <=? 90) then c + 32 else c.

Definition ascii_lower (s : str) : str := List.map ascii_lower_char s.

(** ** Tokens *)

(** The character class [[a-zA-Z0-9']] of [_simple_tokenize]. *)
Definition is_token_char (c : N) : bool :=
  ((97 <=? c) && (c <=? 122)) || ((65 <=? c) && (c <=? 90))
  || ((48 <=? c) && (c <=? 57)) || (c =? 39).

(** Closes the run read so far ([cur], most recent character first). *)
Definition flush (cur : str) : list str :=
  match cur with
  | [] => []
  | _ => [rev cur]
  end.

(** [re.findall(r"[a-zA-Z0-9']+", s)]: the maximal runs of token characters,
    left to right. *)
Fixpoint findall_tokens (cur : str) (s : str) : list str :=
  match s with
  | [] => flush cur
  | c :: s' =>
      if is_token_char c then findall_tokens (c :: cur) s'
      else flush cur ++ findall_tokens [] s'
  end.

(** ** Regular expressions

    The fragment of [re] the patterns of [rag.py] are written in: anchors in
    MULTILINE mode, a one-character lookbehind, one character of a class, and
    greedy or lazy repetition of a class. [match_here] is the backtracking
    matcher: it returns the length of the first match in [re]'s priority
    order. *)

Inductive re_item : Type :=
  | Bol                           (* ^ with re.MULTILINE *)
  | Eol                           (* $ with re.MULTILINE *)
  | Behind (cls : N -> bool)      (* (?<=cls) *)
  | Chr (cls : N -> bool)         (* one character of the class *)
  | Star (cls : N -> bool)        (* cls*  greedy *)
  | LazyStar (cls : N -> bool).   (* cls*? lazy   *)

Definition at_bol (prev : option N) : bool :=
  match prev with
  | None => true
  | Some c => c =? NEWLINE
  end.

Definition at_eol (s : str) : bool :=
  match s with
  | [] => true
  | c :: _ => c =? NEWLINE
  end.

Fixpoint match_here (p : list re_item) : option N -> str -> option nat :=
  match p with
  | [] => fun _ _ => Some 0%nat
  | Bol :: p' => fun prev s => if at_bol prev then match_here p' prev s else None
  | Eol :: p' => fun prev s => if at_eol s then match_here p' prev s else None
  | Behind cls :: p' => fun prev s =>
      match prev with
      | Some c => if cls c then match_here p' prev s else None
      | None => None
      end
  | Chr cls :: p' => fun _ s =>
      match s with
      | c :: s' => if cls c then S <$> match_here p' (Some c) s' else None
      | [] => None
      end
  | Star cls :: p' =>
      fix greedy (prev : option N) (s : str) : option nat :=
        match s with
        | c :: s' =>
            if cls c then
              match greedy (Some c) s' with
              | Some n => Some (S n)
              | None => match_here p' prev s
              end
            else match_here p' prev s
        | [] => match_here p' prev s
        end
  | LazyStar cls :: p' =>
      fix lazy (prev : option N) (s : str) : option nat :=
        match match_here p' prev s with
        | Some n => Some n
        | None =>
            match s with
            | c :: s' => if cls c then S <$> lazy (Some c) s' else None
            | [] => None
            end
        end
  end.

(** [pattern.search(text)]: the leftmost start at which the pattern matches,
    as the pair [(m.start(), m.end())]. *)
Fixpoint re_search_from (p : list re_item) (prev : option N) (i : nat) (s : str)
  : option (nat * nat) :=
  match match_here p prev s with
  | Some n => Some (i, (i + n)%nat)
  | None =>
      match s with
      | c :: s' => re_search_from p (Some c) (S i) s'
      | [] => None
      end
  end.

Definition re_search (p : list re_item) (text : str) : option (nat * nat) :=
  re_search_from p None 0%nat text.

(** [pattern.split(text)] for a pattern that matches no empty string: the
    pieces between successive leftmost matches. [skip] counts the characters
    of the current match still to be passed over, [cur] is the piece read so
    far, most recent character first. *)
Fixpoint re_split_from (p : list re_item) (prev : option N) (skip : nat)
    (cur : str) (s : str) : list str :=
  match s with
  | [] => [rev cur]
  | c :: s' =>
      match skip with
      | S k => re_split_from p (Some c) k cur s'
      | O =>
          match match_here p prev s with
          | Some (S n) => rev cur :: re_split_from p (Some c) n [] s'
          | _ => re_split_from p (Some c) 0%nat (c :: cur) s'
          end
      end
  end.

Definition re_split (p : list re_item) (text : str) : list str :=
  re_split_from p None 0%nat [] text.

(** A pattern letter under [re.IGNORECASE] on [str]: both ASCII cases, and
    the non-ASCII code points that case-fold onto [s], [i] and [k]
    (U+017F; U+0130 and U+0131; U+212A). *)
Definition ci_char (p c : N) : bool :=
  let p' := ascii_lower_char p in
  (ascii_lower_char c =? p')
  || ((p' =? 115) && (c =? 383))
  || ((p' =? 105) && ((c =? 304) || (c =? 305)))
  || ((p' =? 107) && (c =? 8490)).

Definition lit_ci (s : string) : list re_item :=
  List.map (fun p => Chr (ci_char p)) (py s).

(** [[=\s]], [\s] and [.] (without DOTALL). *)
Definition eq_or_space (c : N) : bool := (c =? 61) || is_space c.
Definition not_newline (c : N) : bool := negb (c =? NEWLINE).

(** [^[=\s]*SECTION:\s*PROMPTS.*?$] *)
Definition _PROMPTS_HEADER_RE : list re_item :=
  [Bol; Star eq_or_space] ++ lit_ci "SECTION:" ++ [Star is_space]
  ++ lit_ci "PROMPTS" ++ [LazyStar not_newline; Eol].

(** [^[=\s]*SECTION:\s*.+?$] *)
Definition _SECTION_HEADER_RE : list re_item :=
  [Bol; Star eq_or_space] ++ lit_ci "SECTION:"
  ++ [Star is_space; Chr not_newline; LazyStar not_newline; Eol].

(** [_strip_ignored_sections(text)]. *)
Definition _strip_ignored_sections (text : str) : str :=
  match re_search _PROMPTS_HEADER_RE text with
  | None => text
  | Some (start, m_end) =>
      let tail := slice_from m_end text in
      let stop :=
        match re_search _SECTION_HEADER_RE tail with
        | None => length text
        | Some (n_start, _) => (m_end + n_start)%nat
        end in
      strip (take start text ++ slice_from stop text)
  end.

(** [(?<=[.!?])\s+] *)
Definition is_terminator (c : N) : bool := (c =? 46) || (c =? 33) || (c =? 63).

Definition _SENT_SPLIT_RE : list re_item :=
  [Behind is_terminator; Chr is_space; Star is_space].

(** [_split_sentences(text)]. *)
Definition _split_sentences (text : str) : list str :=
  let sents :=
    List.map strip
      (List.filter (fun s => (2 <? length (strip s))%nat)
         (re_split _SENT_SPLIT_RE text)) in
  slice_to 50 sents.

(** ** Sorting

    [list.sort] and [sorted] are stable: elements that compare equal keep
    their original order, also with [reverse=True]. [before y x] says that
    [y] must come strictly before [x] in the result. *)

Section Sort.
Context {A : Type} (before : A -> A -> bool).

Fixpoint sort_insert (x : A) (l : list A) : list A :=
  match l with
  | [] => [x]
  | y :: l' => if before y x then y :: sort_insert x l' else x :: l
  end.

Fixpoint stable_sort (l : list A) : list A :=
  match l with
  | [] => []
  | x :: l' => sort_insert x (stable_sort l')
  end.

End Sort.

(** [a < b] on [str]: lexicographic on code points. *)
Fixpoint str_ltb (a b : str) : bool :=
  match a, b with
  | _, [] => false
  | [], _ :: _ => true
  | x :: a', y :: b' => (x <? y) || ((x =? y) && str_ltb a' b')
  end.

(** ** Paths, patterns and the documents directory *)

Definition SLASH : N := 47.

(** [s.startswith(prefix)] and [needle in s]. *)
Fixpoint startswith (prefix s : str) : bool :=
  match prefix, s with
  | [], _ => true
  | _ :: _, [] => false
  | p :: prefix', c :: s' => (c =? p) && startswith prefix' s'
  end.

Fixpoint contains (needle s : str) : bool :=
  startswith needle s ||
  match s with
  | [] => false
  | _ :: s' => contains needle s'
  end.

(** [s.split(sep)] for a one-character separator. *)
Fixpoint split_on (sep : N) (cur : str) (s : str) : list str :=
  match s with
  | [] => [rev cur]
  | c :: s' =>
      if c =? sep then rev cur :: split_on sep [] s'
      else split_on sep (c :: cur) s'
  end.

(** [os.path.join(folder, name)] for a relative [name], and
    [os.path.basename(path)]. *)
Definition path_join (folder name : str) : str :=
  match rev folder with
  | [] => name
  | c :: _ => if c =? SLASH then folder ++ name else folder ++ [SLASH] ++ name
  end.

Fixpoint basename_from (cur : str) (p : str) : str :=
  match p with
  | [] => rev cur
  | c :: p' => if c =? SLASH then basename_from [] p' else basename_from (c :: cur) p'
  end.

Definition basename (p : str) : str := basename_from [] p.

(** [fnmatch] on a file name, for patterns made of literal characters, [*]
    and [?]. A bracket expression is read as literal characters here, where
    [glob] reads a character class: the model is [glob]'s matching on the
    patterns [plain_pattern] below describes, the default ones among them. *)
Fixpoint fnmatch (pat : str) : str -> bool :=
  match pat with
  | [] => fun s => match s with [] => true | _ => false end
  | p :: pat' =>
      if p =? 42 then
        fix star (s : str) : bool :=
          fnmatch pat' s || match s with [] => false | _ :: s' => star s' end
      else if p =? 63 then
        fun s => match s with [] => false | _ :: s' => fnmatch pat' s' end
      else
        fun s => match s with [] => false | c :: s' => (c =? p) && fnmatch pat' s' end
  end.

(** What a name of the documents directory denotes: a regular file, whose
    content is [None] when opening or decoding it raises, or a directory. *)
Inductive Entry : Type :=
  | RegularFile (content : option str)
  | Directory.

(** The documents directory: file names to entries. A directory that does
    not exist yet is created by [os.makedirs] and is then the empty one. *)
Abbreviation Folder := (gmap str Entry).

(** [glob.glob(os.path.join(folder, pat))] for a file-name pattern and a
    folder whose path holds no wildcard: the matching names, hidden files
    only for a pattern that starts with a dot, each joined to the folder. A
    pattern with a path separator would look into a subfolder, which the
    folder model does not have. *)
Definition glob_in (folder : str) (dir : Folder) (pat : str) : list str :=
  List.map (path_join folder)
    (List.filter
       (fun name => (startswith [46] pat || negb (startswith [46] name))
                    && fnmatch pat name)
       (elements (dom dir))).

(** [_expand_globs(folder, pattern_csv)]. *)
Definition _expand_globs (folder : str) (dir : Folder) (pattern_csv : str) : list str :=
  let pats :=
    List.filter (fun p => negb (Nat.eqb (length p) 0))
      (List.map strip (split_on 44 [] pattern_csv)) in
  let paths := List.flat_map (glob_in folder dir) pats in
  stable_sort str_ltb (elements (list_to_set paths : gset str)).

(** [os.path.isfile(path)] and [open(path).read()] inside the folder. *)
Definition isfile (dir : Folder) (path : str) : bool :=
  match dir !! basename path with
  | Some (RegularFile _) => true
  | _ => false
  end.

Definition read_text (dir : Folder) (path : str) : option str :=
  match dir !! basename path with
  | Some (RegularFile content) => content
  | _ => None
  end.

(** [os.getenv("DOCS_DIR", "data")] and [os.getenv("DOCS_GLOB", "*.txt,*.md")]
    in a process started with neither variable set: the development is of
    the default configuration, and a statement that depends on the patterns
    says so. *)
Definition _DOCS_DIR : str := py "data".
Definition _DOCS_GLOB : str := py "*.txt,*.md".

Definition SAMPLE_NAME : str := py "sample_polar_bears.txt".
Definition SAMPLE_TEXT : str :=
  py "Polar bears (Ursus maritimus) rely on sea ice to hunt seals, their primary food source. "
  ++ py "They are strong swimmers with large paws and a thick fat layer for insulation. "
  ++ py "Climate change reduces sea ice, shrinking hunting seasons and threatening populations.".

(** ** Rational scores *)

Definition Qltb (a b : Q) : bool := negb (Qle_bool b a).

(** [len(a) / len(b)] for two sets, [b] not empty. *)
Definition ratio (a b : nat) : Q := Z.of_nat a # Pos.of_nat b.

(** ** Hits, documents and the process state *)

(** A hit: the dict with the keys [source], [snippet] and [score]. A key
    that is absent is [None]; so is a [score] that is Python's [None]. *)
Record Hit : Type := {
  source : option str;
  snippet : option str;
  score : option Q
}.

(** A LangChain [Document] with [metadata = {"source": path}]. *)
Record Document : Type := {
  doc_source : str;
  page_content : str
}.

(** [_vectorstore]: [None], a FAISS index over the chunks, or the plain list
    of chunks. *)
Inductive VectorStore : Type :=
  | NoStore
  | FaissStore (chunks : list Document)
  | ListStore (chunks : list Document).

(** The module-level state of [rag.py] together with the documents
    directory. [_embeddings] records whether the embeddings object was
    built. *)
Record State : Type := {
  _INDEX_READY : bool;
  _embeddings : bool;
  _vectorstore : VectorStore;
  _free_chunks : list (str * str);
  docs_dir : Folder
}.

(** The value [get_rag_response] returns, without [latency_ms] (wall-clock
    time is outside the embedding). *)
Record QueryResult : Type := {
  answer : str;
  sources : list Hit;
  mode : str;
  request_id : option str
}.

Definition SENTINEL : str := py "I cannot find this in the documents.".

Definition str_of_nat (n : nat) : str :=
  py (DecimalString.NilZero.string_of_uint (Nat.to_uint n)).

(** ** Stand-ins for the library calls and sample inputs

    Used by the concrete runs at the end. [log2_floor] is the integer part
    of the binary logarithm: it is [math.log2] on the powers of two, and the
    runs whose outcome depends on its value score sentences of 15
    characters, for which the code computes log2 16 = 4. *)

Definition log2_floor (n : nat) : Q := inject_Z (Z.log2 (Z.of_nat n)).

(** Rounding of an exact rational to four decimals, ties to even: the
    stand-in for [round(x, 4)] in the concrete runs. Python rounds the
    binary64 value, so the two differ where the representation error of the
    float decides a tie (1/160 for one). *)
Definition round4_half_even (x : Q) : Q :=
  let y := (x * 10000)%Q in
  let f := Qfloor y in
  let r := (y - inject_Z f)%Q in
  let n :=
    if Qltb r (1 # 2) then f
    else if Qltb (1 # 2) r then (f + 1)%Z
    else if Z.even f then f else (f + 1)%Z in
  (n # 10000)%Q.

(** The splitter on a text shorter than one chunk. *)
Definition one_chunk (text : str) : list str :=
  match strip text with
  | [] => []
  | s => [s]
  end.

Definition first_k_search (chunks : list Document) (_ : str) (k : Z) : list Document :=
  take (Z.to_nat k) chunks.

Definition no_chat (_ _ : str) : str := SENTINEL.

Definition hit_of (s : string) : Hit :=
  {| source := None; snippet := Some (py s); score := None |}.

(** Lines joined by a line feed. *)
Definition text_of (lines : list str) : str := join [NEWLINE] lines.

Definition fresh_state (dir : Folder) : State :=
  {| _INDEX_READY := false; _embeddings := false; _vectorstore := NoStore;
     _free_chunks := []; docs_dir := dir |}.

Definition helper_only_dir : Folder :=
  {[ py "_notes.txt" := RegularFile (Some (py "Internal notes for the operator.")) ]}.

Definition two_prompt_sections : str :=
  text_of [py "SECTION: PROMPTS"; py "foo"; py "SECTION: DATA"; py "bar";
           py "SECTION: PROMPTS"; py "baz"].

Definition mixed_dir : Folder :=
  {[ py "b.txt" := RegularFile (Some (py "bee"));
     py "a.md" := RegularFile (Some (py "ay"));
     py "_x.txt" := RegularFile (Some (py "helper"));
     py ".h.txt" := RegularFile (Some (py "hidden"));
     py "ui_Prompts.md" := RegularFile (Some (py "ask"));
     py "sub.txt" := Directory;
     py "bad.txt" := RegularFile None;
     py "c.pdf" := RegularFile (Some (py "pdf")) ]}.

(** ** Vocabulary of the statements *)

(** A string that starts with a character that is not white space. *)
Definition starts_solid (s : str) : Prop :=
  exists c r, s = c :: r /\ is_space c = false.

(** The character before position [i] of [text], as the matcher sees it. *)
Definition char_before (text : str) (i : nat) : option N := last (take i text).

(** The pattern matches [n] characters of [text] from position [i] on. *)
Definition matches_at (p : list re_item) (text : str) (i n : nat) : Prop :=
  match_here p (char_before text i) (drop i text) = Some n.

Definition no_match_at (p : list re_item) (text : str) (i : nat) : Prop :=
  match_here p (char_before text i) (drop i text) = None.

(** The Jaccard similarity of two token sets in the words of the
    specification: the size of the intersection over the size of the union,
    and 0 when either set is empty. *)
Definition jaccard (q t : gset str) : Q :=
  if decide (q = ∅ \/ t = ∅) then 0%Q
  else (Z.of_nat (size (q ∩ t)) # Pos.of_nat (size (q ∪ t)))%Q.

(** A file-name pattern on which [fnmatch] above is [glob]'s matching: no
    bracket expression, no path separator, and not one of the two directory
    names every folder has. *)
Definition plain_pattern (pat : str) : Prop :=
  Forall (fun c => c <> 91 /\ c <> SLASH) pat /\ pat <> py "." /\ pat <> py "..".

(** A list ranked by a rational key: descending keys, equal keys in the
    order of [original]. *)
Definition ranked_by {A} (key : A -> Q) (original ranked : list A) : Prop :=
  ranked ≡ₚ original
  /\ StronglySorted (fun a b => (key b <= key a)%Q) ranked
  /\ forall v, List.filter (fun e => Qeq_bool (key e) v) ranked
               = List.filter (fun e => Qeq_bool (key e) v) original.

Section Rag.

(** [str.lower]: full Unicode lower-casing, left abstract. *)
Variable lower : str -> str.

(** [math.log2] on the positive integers. *)
Variable log2 : nat -> Q.

(** [_TEXT_SPLITTER.split_text]: the chunks of one text
    ([RecursiveCharacterTextSplitter], chunk size 800, overlap 120). *)
Variable split_text : str -> list str.

(** [FAISS.similarity_search(query, k)] over the indexed chunks. *)
Variable similarity_search : list Document -> str -> Z -> list Document.

(** [round(x, 4)] on a score. The score is the binary64 quotient of two set
    sizes, which is the float nearest to the exact ratio, so the rounded
    score is a function of that ratio; Python rounds the float, not the
    ratio, and the function is left abstract. *)
Variable round4 : Q -> Q.

(** [ChatOpenAI.ainvoke] on a system and a user message: the content of the
    reply. *)
Variable chat : str -> str -> str.

(** [USE_OPENAI] and [_FAISS_OK], fixed when the module is imported. *)
Variable USE_OPENAI : bool.
Variable _FAISS_OK : bool.

(** *** Ingestion *)

(** The loop of [_read_all_text_files] over the candidate paths. *)
Definition read_candidates (dir : Folder) (candidates : list str) : list (str * str) :=
  List.flat_map
    (fun p =>
       let base := basename p in
       if startswith (py "_") base || contains (py "prompts") (lower base) then []
       else
         match read_text dir p with
         | Some content => [(p, content)]
         | None => []
         end)
    candidates.

(** [_read_all_text_files(folder)]: the directory after the call and the
    list of [(path, content)] it returns. *)
Definition _read_all_text_files (folder : str) (dir : Folder)
  : Folder * list (str * str) :=
  let preferred := path_join folder (py "my_document.txt") in
  let candidates :=
    if isfile dir preferred then [preferred]
    else _expand_globs folder dir _DOCS_GLOB in
  match candidates with
  | [] =>
      let sample_path := path_join folder SAMPLE_NAME in
      let dir' := <[SAMPLE_NAME := RegularFile (Some SAMPLE_TEXT)]> dir in
      (dir', read_candidates dir' [sample_path])
  | _ => (dir, read_candidates dir candidates)
  end.

(** *** Lexical scoring *)

(** [_simple_tokenize(text)]. *)
Definition _simple_tokenize (text : str) : list str :=
  findall_tokens [] (lower text).

(** [set(_simple_tokenize(text))]. *)
Definition token_set (text : str) : gset str :=
  list_to_set (_simple_tokenize text).

(** [_keyword_overlap_score(query, text)]. *)
Definition _keyword_overlap_score (query text : str) : Q :=
  let q := token_set query in
  let t := token_set text in
  if decide (q = ∅ ∨ t = ∅) then 0%Q
  else ratio (size (q ∩ t)) (size (q ∪ t)).

(** *** Free-mode sentence selection *)

(** [_score_sentence(query_tokens, sent)]; the constants 0.9 and 0.1 are the
    rationals 9/10 and 1/10. *)
Definition _score_sentence (query_tokens : gset str) (sent : str) : Q :=
  let toks := token_set sent in
  if decide (toks = ∅) then 0%Q
  else
    let inter := size (query_tokens ∩ toks) in
    let union := size (query_tokens ∪ toks) in
    let jaccard := if Nat.eqb union 0 then 0%Q else ratio inter union in
    let length_penalty := (1 / (1 + log2 (1 + length sent)))%Q in
    (jaccard * (9 # 10) + length_penalty * (1 # 10))%Q.

(** [h.get("snippet", "")]. *)
Definition get_snippet (h : Hit) : str := default [] (snippet h).

(** The first loop of [_compose_answer_free]: the scored sentences of the
    first five hits whose score is positive. *)
Definition sentence_candidates (query : str) (hits : list Hit) : list (Q * str) :=
  let qtoks := token_set query in
  List.flat_map
    (fun h =>
       List.flat_map
         (fun s =>
            let sc := _score_sentence qtoks s in
            if Qltb 0 sc then [(sc, s)] else [])
         (_split_sentences (get_snippet h)))
    (slice_to 5 hits).

(** [candidates.sort(key=lambda x: x[0], reverse=True)]. *)
Definition sort_candidates (cands : list (Q * str)) : list (Q * str) :=
  stable_sort (fun y x => Qltb (fst x) (fst y)) cands.

(** The second loop: sentences in order, skipping one whose lower-cased text
    was already taken, until [max_sentences] are picked. *)
Fixpoint pick_sentences (max_sentences : Z) (cands : list (Q * str))
    (picked : list str) (seen : gset str) : list str :=
  match cands with
  | [] => picked
  | (_, s) :: rest =>
      let key := lower s in
      if decide (key ∈ seen) then pick_sentences max_sentences rest picked seen
      else
        let picked' := picked ++ [s] in
        if (max_sentences <=? Z.of_nat (length picked'))%Z then picked'
        else pick_sentences max_sentences rest picked' ({[key]} ∪ seen)
  end.

(** The sentences [_compose_answer_free] stitches together. *)
Definition picked_sentences (query : str) (hits : list Hit) (max_sentences : Z)
  : list str :=
  pick_sentences max_sentences (sort_candidates (sentence_candidates query hits)) [] ∅.

(** The stitched text before truncation. *)
Definition joined_answer (query : str) (hits : list Hit) (ms : Z) : str :=
  strip (join (py " ") (picked_sentences query hits ms)).

(** The last three lines: join, truncate, fall back on the sentinel. *)
Definition finish_answer (picked : list str) (max_chars : Z) : str :=
  let ans := strip (join (py " ") picked) in
  let ans :=
    if (max_chars <? Z.of_nat (length ans))%Z
    then rstrip (slice_to (max_chars - 1) ans) ++ [ELLIPSIS]
    else ans in
  match ans with
  | [] => SENTINEL
  | _ => ans
  end.

(** [_compose_answer_free(query, hits, max_sentences, max_chars)]. *)
Definition _compose_answer_free (query : str) (hits : list Hit)
    (max_sentences max_chars : Z) : str :=
  match sentence_candidates query hits with
  | [] => SENTINEL
  | _ => finish_answer (picked_sentences query hits max_sentences) max_chars
  end.

(** *** Initialization *)

(** The loop shared by [_init_openai_mode] and [_init_free_mode]: every
    document, stripped of its ignored section and split, as chunks that carry
    the path of the document. *)
Definition make_chunks (docs : list (str * str)) : list Document :=
  List.flat_map
    (fun '(path, content) =>
       List.map (fun c => {| doc_source := path; page_content := c |})
         (split_text (_strip_ignored_sections content)))
    docs.

(** [_init_openai_mode(docs)]. *)
Definition _init_openai_mode (docs : list (str * str)) (st : State) : State :=
  let chunks := make_chunks docs in
  {| _INDEX_READY := _INDEX_READY st;
     _embeddings := true;
     _vectorstore := if _FAISS_OK then FaissStore chunks else ListStore chunks;
     _free_chunks := _free_chunks st;
     docs_dir := docs_dir st |}.

(** [_init_free_mode(docs)]. *)
Definition _init_free_mode (docs : list (str * str)) (st : State) : State :=
  {| _INDEX_READY := _INDEX_READY st;
     _embeddings := _embeddings st;
     _vectorstore := _vectorstore st;
     _free_chunks :=
       List.map (fun d => (doc_source d, page_content d)) (make_chunks docs);
     docs_dir := docs_dir st |}.

(** [init()]. *)
Definition init (st : State) : State :=
  if _INDEX_READY st then st
  else
    let '(dir', docs) := _read_all_text_files _DOCS_DIR (docs_dir st) in
    let st1 :=
      {| _INDEX_READY := _INDEX_READY st;
         _embeddings := _embeddings st;
         _vectorstore := _vectorstore st;
         _free_chunks := _free_chunks st;
         docs_dir := dir' |} in
    let st2 := if USE_OPENAI then _init_openai_mode docs st1 else _init_free_mode docs st1 in
    {| _INDEX_READY := true;
       _embeddings := _embeddings st2;
       _vectorstore := _vectorstore st2;
       _free_chunks := _free_chunks st2;
       docs_dir := docs_dir st2 |}.

(** *** Retrieval *)

(** The corpus scored against the query, in corpus order. *)
Definition score_corpus (query : str) (corpus : list (str * str))
  : list (str * str * Q) :=
  List.map (fun '(src, txt) => (src, txt, _keyword_overlap_score query txt)) corpus.

(** [scored.sort(key=lambda x: x[2], reverse=True)]. *)
Definition sort_scored (scored : list (str * str * Q)) : list (str * str * Q) :=
  stable_sort (fun y x => Qltb (snd x) (snd y)) scored.

Definition lexical_hit (e : str * str * Q) : Hit :=
  let '(src, txt, sc) := e in
  {| source := Some src; snippet := Some (slice_to 300 txt); score := Some (round4 sc) |}.

(** The keyword-overlap branch of [_top_k_from_vectorstore]. *)
Definition lexical_top_k (corpus : list (str * str)) (query : str) (k : Z) : list Hit :=
  List.map lexical_hit (slice_to k (sort_scored (score_corpus query corpus))).

(** The corpus of the keyword-overlap branch: the chunk list kept in
    [_vectorstore] (OpenAI mode without FAISS) or [_free_chunks]. *)
Definition fallback_corpus (st : State) : list (str * str) :=
  match USE_OPENAI, _vectorstore st with
  | true, ListStore chunks =>
      List.map (fun d => (doc_source d, page_content d)) chunks
  | _, _ => _free_chunks st
  end.

(** [_top_k_from_vectorstore(query, k)]. *)
Definition _top_k_from_vectorstore (st : State) (query : str) (k : Z) : list Hit :=
  match USE_OPENAI && _FAISS_OK, _vectorstore st with
  | true, FaissStore chunks =>
      List.map
        (fun d => {| source := Some (doc_source d);
                     snippet := Some (slice_to 300 (page_content d));
                     score := None |})
        (similarity_search chunks query k)
  | _, _ => lexical_top_k (fallback_corpus st) query k
  end.

(** *** Query *)

(** [max(1, min(10, int(top_k)))]. *)
Definition clamp_top_k (top_k : Z) : Z := Z.max 1 (Z.min 10 top_k).

Definition WANT_MORE_CUES : list str :=
  [py "list"; py "compare"; py "difference"; py "differences"; py "who";
   py "what is"; py "what are"].

(** The numbered context block handed to the chat model. *)
Definition context_text (hits : list Hit) : str :=
  join [NEWLINE; NEWLINE]
    (imap (fun i h => py "[" ++ str_of_nat (i + 1) ++ py "] " ++ get_snippet h) hits).

Definition SYSTEM_PROMPT : str :=
  py "You are a concise assistant. Answer ONLY using the provided context. "
  ++ py "If the answer is absent, say 'I cannot find this in the documents.'".

(** The hits as [get_rag_response] hands them back: with their scores when
    tracing, without them otherwise. *)
Definition present_hits (trace : bool) (hits : list Hit) : list Hit :=
  if trace then hits
  else List.map (fun h => {| source := source h; snippet := snippet h; score := None |}) hits.

(** [get_rag_response(query, top_k, trace, request_id)]: the state after the
    call and the result. *)
Definition get_rag_response (st : State) (query : str) (top_k : Z) (trace : bool)
    (req : option str) : State * QueryResult :=
  let st := if _INDEX_READY st then st else init st in
  let top_k := clamp_top_k top_k in
  let hits := _top_k_from_vectorstore st query top_k in
  let ans :=
    if USE_OPENAI then
      let user :=
        py "Context:" ++ [NEWLINE] ++ context_text hits ++ [NEWLINE; NEWLINE]
        ++ py "Question: " ++ query ++ [NEWLINE] in
      strip (chat SYSTEM_PROMPT user)
    else
      match hits with
      | [] => SENTINEL
      | _ =>
          let qlow := lower query in
          let want_more := existsb (fun w => contains w qlow) WANT_MORE_CUES in
          _compose_answer_free query hits (if want_more then 4 else 3)%Z 600
      end in
  let hits := present_hits trace hits in
  (st, {| answer := ans;
          sources := hits;
          mode := if USE_OPENAI then py "openai" else py "free";
          request_id := req |}).

(** *** Assumptions on the library calls *)

(** [str.lower] on ASCII text. *)
Definition lower_on_ascii : Prop :=
  forall s, Forall (fun c => c < 128) s -> lower s = ascii_lower s.

(** [math.log2] is not negative from 1 on. *)
Definition log2_nonneg : Prop := forall n, (1 <= n)%nat -> (0 <= log2 n)%Q.

(** The contract of FAISS: a search for [k] neighbours returns at most [k]
    documents. *)
Definition at_most_k_neighbours : Prop :=
  forall chunks query k,
    (0 <= k)%Z -> (length (similarity_search chunks query k) <= Z.to_nat k)%nat.

(** *** The HTTP endpoint ([endpoints.py]) *)

(** The patterns [_expand_globs] reads off the comma-separated list. *)
Definition glob_patterns (pattern_csv : str) : list str :=
  List.filter (fun p => negb (Nat.eqb (length p) 0))
    (List.map strip (split_on 44 [] pattern_csv)).

(** The two status codes the handler raises by itself; the others map
    exceptions of the backend, which the embedding does not have. *)
Inductive HttpError : Type :=
  | Http422   (* HTTP_422_UNPROCESSABLE_ENTITY, also FastAPI's validation error *)
  | Http503.  (* HTTP_503_SERVICE_UNAVAILABLE *)

(** [QueryResponse], without [latency_ms]. *)
Record QueryResponse : Type := {
  resp_request_id : str;
  resp_query : str;
  resp_answer : str;
  resp_sources : list Hit
}.

(** The constraints declared on the parameters, which FastAPI checks before
    the body runs: [min_length=3], [max_length=512], [ge=1], [le=10]. *)
Definition valid_params (query : str) (top_k : Z) : bool :=
  (3 <=? length query)%nat && (length query <=? 512)%nat
  && (1 <=? top_k)%Z && (top_k <=? 10)%Z.

(** [query_rag_system(query, top_k, trace)]; [rid] is the identifier
    [uuid.uuid4()] draws for the request. *)
Definition query_rag_system (st : State) (query : str) (top_k : Z) (trace : bool)
    (rid : str) : State * (HttpError + QueryResponse) :=
  if negb (valid_params query top_k) then (st, inl Http422)
  else
    let q := strip query in
    if (length q <? 3)%nat then (st, inl Http422)
    else
      let '(st', result) := get_rag_response st q top_k trace (Some rid) in
      match answer result with
      | [] => (st', inl Http503)
      | ans =>
          (st', inr {| resp_request_id := rid;
                       resp_query := q;
                       resp_answer := ans;
                       resp_sources := sources result |})
      end.

(** ** Properties *)

(** Takes the library calls the goal does not mention out of the sight of
    [set_solver] and [tauto], which would treat them as implications. *)
Ltac hide_calls :=
  try clear chat; try clear round4; try clear similarity_search;
  try clear split_text; try clear log2; try clear lower.

(** *** Strings *)

Lemma lstrip_length (s : str) : (length (lstrip s) <= length s)%nat.
Proof.
  induction s as [|c s IH]; simpl; [lia|].
  destruct (is_space c); simpl; lia.
Qed.

Lemma rstrip_length (s : str) : (length (rstrip s) <= length s)%nat.
Proof.
  unfold rstrip. rewrite length_rev.
  etransitivity; [apply lstrip_length|]. by rewrite length_rev.
Qed.

Lemma lstrip_cons_nonspace (c : N) (s : str) :
  is_space c = false -> lstrip (c :: s) = c :: s.
Proof. intros H. simpl. by rewrite H. Qed.

Lemma lstrip_head (s : str) (c : N) (r : str) :
  lstrip s = c :: r -> is_space c = false.
Proof.
  induction s as [|d s IH]; simpl; [done|].
  destruct (is_space d) eqn:Hd; [done|].
  intros [= -> _]. done.
Qed.

Lemma lstrip_snoc_nonspace (s : str) (c : N) :
  is_space c = false -> lstrip (s ++ [c]) = lstrip s ++ [c].
Proof.
  intros Hc. induction s as [|d s IH]; simpl.
  - by rewrite Hc.
  - destruct (is_space d); done.
Qed.

Lemma rstrip_cons_nonspace (c : N) (s : str) :
  is_space c = false -> rstrip (c :: s) = c :: rstrip s.
Proof.
  intros Hc. unfold rstrip. simpl.
  rewrite lstrip_snoc_nonspace by done.
  by rewrite rev_app_distr.
Qed.

Lemma strip_starts_solid (s : str) : strip s <> [] -> starts_solid (strip s).
Proof.
  unfold strip. destruct (lstrip s) as [|c r] eqn:Hl; [done|].
  intros _. pose proof (lstrip_head _ _ _ Hl) as Hc.
  rewrite rstrip_cons_nonspace by done. by exists c, (rstrip r).
Qed.

Lemma strip_of_solid (s : str) : starts_solid s -> strip s <> [].
Proof.
  intros (c & r & -> & Hc). unfold strip.
  rewrite lstrip_cons_nonspace by done.
  by rewrite rstrip_cons_nonspace.
Qed.

Lemma join_starts_solid (sep p : str) (ps : list str) :
  starts_solid p -> starts_solid (join sep (p :: ps)).
Proof.
  intros (c & r & -> & Hc). destruct ps as [|q ps]; simpl.
  - by exists c, r.
  - by eexists c, _.
Qed.

Lemma slice_to_length {A} (k : Z) (l : list A) :
  (0 <= k)%Z -> length (slice_to k l) = Nat.min (Z.to_nat k) (length l).
Proof.
  intros Hk. unfold slice_to.
  destruct (Z.leb_spec 0 k); [|lia]. apply length_take.
Qed.

Lemma slice_to_take {A} (k : Z) (l : list A) :
  (0 <= k)%Z -> slice_to k l = take (Z.to_nat k) l.
Proof.
  intros Hk. unfold slice_to. destruct (Z.leb_spec 0 k); [done|lia].
Qed.

(** *** The overlap score *)

Lemma ratio_nonneg (a b : nat) : (0 <= ratio a b)%Q.
Proof. unfold ratio, Qle. simpl. lia. Qed.

Lemma ratio_le_1 (a b : nat) : (a <= b)%nat -> (0 < b)%nat -> (ratio a b <= 1)%Q.
Proof.
  intros Hab Hb. unfold ratio, Qle. simpl.
  rewrite Z.mul_1_r, Z.mul_1_l. 
  assert (Z.pos (Pos.of_nat b) = Z.of_nat b) as ->; [|lia].
  destruct b; [lia|]. rewrite <- Pos.of_nat_succ. lia.
Qed.

Lemma ratio_eq_1 (a b : nat) : (0 < b)%nat -> (ratio a b == 1)%Q -> a = b.
Proof.
  intros Hb. unfold ratio, Qeq. simpl.
  rewrite Z.mul_1_r, Z.mul_1_l.
  assert (Z.pos (Pos.of_nat b) = Z.of_nat b) as ->; [|lia].
  destruct b; [lia|]. rewrite <- Pos.of_nat_succ. lia.
Qed.

Lemma inter_union_size (q t : gset str) : (size (q ∩ t) <= size (q ∪ t))%nat.
Proof. hide_calls. apply subseteq_size. set_solver. Qed.

Lemma inter_union_same (q t : gset str) : size (q ∩ t) = size (q ∪ t) -> q = t.
Proof.
  hide_calls. intros Hsz.
  assert (q ∩ t = q ∪ t) as Heq.
  { apply set_eq. intros x. split; [set_solver|]. intros Hx.
    destruct (decide (x ∈ q ∩ t)) as [|Hn]; [done|].
    exfalso.
    assert (q ∩ t ⊂ q ∪ t) as Hsub by set_solver.
    apply subset_size in Hsub. lia. }
  set_solver.
Qed.

(** C4. For every query and every chunk text the Jaccard overlap score lies
    in [0,1]; it is 0 as soon as one of the two token sets is empty; and it
    is 1 only when the two token sets are the same non-empty set. *)
Theorem keyword_overlap_score_range (query text : str) :
  (0 <= _keyword_overlap_score query text <= 1)%Q
  /\ (token_set query = ∅ \/ token_set text = ∅ ->
      _keyword_overlap_score query text = 0%Q)
  /\ ((_keyword_overlap_score query text == 1)%Q ->
      token_set query = token_set text /\ token_set query <> ∅).
Proof.
  hide_calls. unfold _keyword_overlap_score.
  set (q := token_set query). set (t := token_set text).
  destruct (decide (q = ∅ \/ t = ∅)) as [He|Hne].
  - repeat split; try done.
  - assert (q <> ∅ /\ t <> ∅) as [Hq Ht] by tauto.
    assert (0 < size (q ∪ t))%nat as Hpos.
    { apply set_choose_L in Hq as [x Hx].
      assert (size (q ∪ t) <> 0%nat); [|lia].
      intros H0. apply size_empty_inv in H0. set_solver. }
    split; [split; [apply ratio_nonneg|apply ratio_le_1; [apply inter_union_size|done]]|].
    split; [tauto|].
    intros H1. apply ratio_eq_1 in H1; [|done].
    split; [by apply inter_union_same|done].
Qed.

(** *** Stable sorting *)

Section SortFacts.
Context {A : Type} (before : A -> A -> bool).

Lemma sort_insert_perm (x : A) (l : list A) : sort_insert before x l ≡ₚ x :: l.
Proof.
  induction l as [|y l IH]; simpl; [done|].
  destruct (before y x); [|done].
  rewrite IH. apply Permutation_swap.
Qed.

Lemma stable_sort_perm (l : list A) : stable_sort before l ≡ₚ l.
Proof.
  induction l as [|x l IH]; simpl; [done|].
  by rewrite sort_insert_perm, IH.
Qed.

Lemma stable_sort_nil_inv (l : list A) : stable_sort before l = [] -> l = [].
Proof.
  intros H. apply Permutation_nil_r. rewrite <- H. symmetry. apply stable_sort_perm.
Qed.

(** Elements that no pass of [sort_insert] can exchange keep their order:
    a predicate [P] whose members never come strictly before one another
    selects the same sub-list before and after sorting. *)
Lemma sort_insert_filter (P : A -> bool) (x : A) (l : list A) :
  (forall a b, P a = true -> P b = true -> before b a = false) ->
  List.filter P (sort_insert before x l) = List.filter P (x :: l).
Proof.
  intros HP. induction l as [|y l IH]; [done|].
  cbn [sort_insert]. destruct (before y x) eqn:Hyx; [|done].
  cbn [List.filter] in *. rewrite IH.
  destruct (P y) eqn:Hy; [|done].
  destruct (P x) eqn:Hx; [|done].
  rewrite (HP x y Hx Hy) in Hyx. done.
Qed.

Lemma stable_sort_filter (P : A -> bool) (l : list A) :
  (forall a b, P a = true -> P b = true -> before b a = false) ->
  List.filter P (stable_sort before l) = List.filter P l.
Proof.
  intros HP. induction l as [|x l IH]; [done|].
  cbn [stable_sort]. rewrite sort_insert_filter by done.
  cbn [List.filter]. by rewrite IH.
Qed.

Hypothesis before_asym : forall x y, before x y = true -> before y x = false.

Lemma sort_insert_sorted (x : A) (l : list A) :
  Sorted (fun a b => before b a = false) l ->
  Sorted (fun a b => before b a = false) (sort_insert before x l).
Proof using before_asym.
  induction 1 as [|y l Hl IH Hhd]; simpl; [by repeat constructor|].
  destruct (before y x) eqn:Hyx.
  - constructor; [done|].
    destruct l as [|z l]; simpl in *.
    + constructor. by apply before_asym.
    + destruct (before z x); constructor.
      * by inversion Hhd.
      * by apply before_asym.
  - constructor; [by constructor|]. by constructor.
Qed.

Lemma stable_sort_sorted (l : list A) :
  Sorted (fun a b => before b a = false) (stable_sort before l).
Proof using before_asym.
  induction l as [|x l IH]; simpl; [constructor|]. by apply sort_insert_sorted.
Qed.

End SortFacts.

Lemma Sorted_weaken {A} (R R' : A -> A -> Prop) (l : list A) :
  (forall a b, R a b -> R' a b) -> Sorted R l -> Sorted R' l.
Proof.
  intros HR. induction 1 as [|a l Hl IH Hhd]; constructor; [done|].
  destruct Hhd; constructor. by apply HR.
Qed.

(** *** Ranking by descending score *)

Lemma Qltb_false (a b : Q) : Qltb a b = false <-> (b <= a)%Q.
Proof.
  unfold Qltb. rewrite negb_false_iff. apply Qle_bool_iff.
Qed.

Lemma Qltb_true (a b : Q) : Qltb a b = true <-> (a < b)%Q.
Proof.
  unfold Qltb. rewrite negb_true_iff. split.
  - intros H. apply Qnot_le_lt. intros Hle. apply Qle_bool_iff in Hle. congruence.
  - intros H. destruct (Qle_bool b a) eqn:E; [|done].
    apply Qle_bool_iff in E. exfalso. by apply (Qlt_not_le a b).
Qed.

Lemma stable_sort_ranked {A} (key : A -> Q) (l : list A) :
  ranked_by key l (stable_sort (fun y x => Qltb (key x) (key y)) l).
Proof.
  split; [apply stable_sort_perm|]. split.
  - apply Sorted_StronglySorted.
    { intros a b c Hab Hbc. by apply Qle_trans with (key b). }
    eapply Sorted_weaken; [|apply stable_sort_sorted].
    + intros a b Hab. simpl in Hab. by apply Qltb_false.
    + intros x y Hxy. apply Qltb_true in Hxy. apply Qltb_false. by apply Qlt_le_weak.
  - intros v. apply stable_sort_filter.
    intros a b Ha Hb. apply Qeq_bool_iff in Ha, Hb.
    apply Qltb_false. rewrite Ha, Hb. apply Qle_refl.
Qed.

(** The ranking is unique: sortedness and stability leave no choice. *)
Lemma ranked_by_unique {A} (key : A -> Q) (l1 l2 : list A) :
  StronglySorted (fun a b => (key b <= key a)%Q) l1 ->
  StronglySorted (fun a b => (key b <= key a)%Q) l2 ->
  (forall v, List.filter (fun e => Qeq_bool (key e) v) l1
             = List.filter (fun e => Qeq_bool (key e) v) l2) ->
  l1 = l2.
Proof.
  intros H1. revert l2. induction H1 as [|a l1 Hs1 IH Hall1]; intros l2 H2 Hf.
  - destruct l2 as [|b l2]; [done|].
    specialize (Hf (key b)). simpl in Hf.
    rewrite (proj2 (Qeq_bool_iff _ _) (Qeq_refl _)) in Hf. done.
  - destruct l2 as [|b l2].
    { specialize (Hf (key a)). simpl in Hf.
      rewrite (proj2 (Qeq_bool_iff _ _) (Qeq_refl _)) in Hf. done. }
    inversion H2 as [|? ? Hs2 Hall2]; subst.
    assert (Qeq_bool (key a) (key a) = true) as Haa
      by (apply Qeq_bool_iff, Qeq_refl).
    assert (Qeq_bool (key b) (key b) = true) as Hbb
      by (apply Qeq_bool_iff, Qeq_refl).
    assert (key a == key b)%Q as Hab.
    { apply Qle_antisym.
      - (* [b] occurs in [a :: l1] *)
        pose proof (Hf (key b)) as Hb. simpl in Hb. rewrite Hbb in Hb.
        assert (In b (a :: l1)) as Hin.
        { eapply (proj1 (filter_In (fun e => Qeq_bool (key e) (key b)) b (a :: l1))).
          simpl. rewrite Hb. by left. }
        destruct Hin as [->|Hin]; [apply Qle_refl|].
        rewrite List.Forall_forall in Hall1. 
        (* key b <= key a, wanted key a <= key b: use [a] in [b :: l2] *)
        pose proof (Hf (key a)) as Ha. simpl in Ha. rewrite Haa in Ha.
        assert (In a (b :: l2)) as Hin2.
        { eapply (proj1 (filter_In (fun e => Qeq_bool (key e) (key a)) a (b :: l2))).
          simpl. rewrite <- Ha. by left. }
        destruct Hin2 as [->|Hin2]; [apply Qle_refl|].
        rewrite List.Forall_forall in Hall2. by apply Hall2.
      - pose proof (Hf (key b)) as Hb. simpl in Hb. rewrite Hbb in Hb.
        assert (In b (a :: l1)) as Hin.
        { eapply (proj1 (filter_In (fun e => Qeq_bool (key e) (key b)) b (a :: l1))).
          simpl. rewrite Hb. by left. }
        destruct Hin as [->|Hin]; [apply Qle_refl|].
        rewrite List.Forall_forall in Hall1. by apply Hall1. }
    assert (a = b) as ->.
    { pose proof (Hf (key b)) as Hb. simpl in Hb. rewrite Hbb in Hb.
      rewrite (proj2 (Qeq_bool_iff _ _) Hab) in Hb. congruence. }
    f_equal. apply IH; [done|].
    intros v. specialize (Hf v). simpl in Hf.
    destruct (Qeq_bool (key b) v); congruence.
Qed.

Lemma top_k_lexical_branch (st : State) (query : str) (k : Z) :
  USE_OPENAI && _FAISS_OK = false ->
  _top_k_from_vectorstore st query k = lexical_top_k (fallback_corpus st) query k.
Proof. intros H. unfold _top_k_from_vectorstore. by rewrite H. Qed.

(** Sorting the images of a list is the image of sorting the list, when the
    order on the images is the order on the originals. *)
Lemma stable_sort_map {A B} (f : A -> B) (beforeA : A -> A -> bool)
    (beforeB : B -> B -> bool) (l : list A) :
  (forall a b, beforeB (f a) (f b) = beforeA a b) ->
  stable_sort beforeB (List.map f l) = List.map f (stable_sort beforeA l).
Proof.
  intros Hf.
  assert (forall x l', sort_insert beforeB (f x) (List.map f l')
                       = List.map f (sort_insert beforeA x l')) as Hins.
  { intros x l'. induction l' as [|y l' IH]; [done|].
    simpl. rewrite Hf. destruct (beforeA y x); [|done]. simpl. by rewrite IH. }
  induction l as [|x l IH]; [done|]. simpl. by rewrite IH, Hins.
Qed.

Lemma keyword_overlap_score_jaccard (query text : str) :
  _keyword_overlap_score query text = jaccard (token_set query) (token_set text).
Proof. done. Qed.

(** C5. With keyword retrieval in force and a count [k], take the chunk
    corpus of the state (the chunk list kept as vector store in OpenAI mode
    without FAISS, the free-mode chunk list otherwise) and rank its chunks by
    the Jaccard similarity of the query's and the chunk's token sets,
    descending, chunks of equal score in corpus order. The hits are the first
    [k] chunks of that ranking, each with its source, the first 300
    characters of its text and its rounded score. *)
Theorem lexical_retrieval_top_k (st : State) (query : str) (k : Z) :
  USE_OPENAI && _FAISS_OK = false ->
  (0 <= k)%Z ->
  let corpus :=
    match USE_OPENAI, _vectorstore st with
    | true, ListStore chunks =>
        List.map (fun d => (doc_source d, page_content d)) chunks
    | _, _ => _free_chunks st
    end in
  let similarity :=
    fun chunk : str * str => jaccard (token_set query) (token_set (snd chunk)) in
  exists ranked : list (str * str),
    ranked_by similarity corpus ranked
    /\ _top_k_from_vectorstore st query k
       = List.map
           (fun chunk => {| source := Some (fst chunk);
                            snippet := Some (take 300 (snd chunk));
                            score := Some (round4 (similarity chunk)) |})
           (take (Z.to_nat k) ranked).
Proof.
  intros Hmode Hk corpus similarity.
  exists (stable_sort (fun y x => Qltb (similarity x) (similarity y)) corpus). split.
  - apply (stable_sort_ranked similarity).
  - rewrite top_k_lexical_branch by done.
    unfold lexical_top_k, sort_scored, score_corpus. fold corpus.
    change (fallback_corpus st) with corpus.
    rewrite (stable_sort_map
               (fun '(src, txt) => (src, txt, _keyword_overlap_score query txt))
               (fun y x => Qltb (similarity x) (similarity y)))
      by (by intros [? ?] [? ?]).
    rewrite slice_to_take, firstn_map, map_map by done.
    apply map_ext. by intros [src txt].
Qed.

(** *** The query entry point *)

Lemma clamp_top_k_range (top_k : Z) : (1 <= clamp_top_k top_k <= 10)%Z.
Proof. unfold clamp_top_k. lia. Qed.

Lemma lexical_top_k_length (corpus : list (str * str)) (query : str) (k : Z) :
  (0 <= k)%Z -> (length (lexical_top_k corpus query k) <= Z.to_nat k)%nat.
Proof.
  intros Hk. unfold lexical_top_k.
  rewrite length_map, slice_to_length by done. lia.
Qed.

Lemma top_k_length (st : State) (query : str) (k : Z) :
  at_most_k_neighbours -> (0 <= k)%Z ->
  (length (_top_k_from_vectorstore st query k) <= Z.to_nat k)%nat.
Proof.
  intros Hfaiss Hk. unfold _top_k_from_vectorstore.
  destruct (USE_OPENAI && _FAISS_OK), (_vectorstore st);
    try (by apply lexical_top_k_length).
  rewrite length_map. by apply Hfaiss.
Qed.

(** C6. Whatever [top_k] the caller passes, retrieval runs with the count
    [k] that is [top_k] inside 1..10, 1 below it and 10 above it; the sources
    of the result are the hits of that retrieval (without their scores unless
    tracing), and there are at most 10 of them. *)
Theorem query_top_k_clamped (st : State) (query : str) (top_k : Z)
    (trace : bool) (req : option str) :
  at_most_k_neighbours ->
  exists k,
    ((top_k < 1)%Z -> k = 1%Z)
    /\ ((1 <= top_k <= 10)%Z -> k = top_k)
    /\ ((10 < top_k)%Z -> k = 10%Z)
    /\ (let hits :=
          _top_k_from_vectorstore (get_rag_response st query top_k trace req).1 query k in
        sources (get_rag_response st query top_k trace req).2
        = if trace then hits
          else List.map
                 (fun h => {| source := source h; snippet := snippet h; score := None |})
                 hits)
    /\ (length (sources (get_rag_response st query top_k trace req).2) <= 10)%nat.
Proof.
  intros Hfaiss. exists (clamp_top_k top_k).
  pose proof (clamp_top_k_range top_k) as Hk.
  split; [unfold clamp_top_k; lia|]. split; [unfold clamp_top_k; lia|].
  split; [unfold clamp_top_k; lia|].
  unfold get_rag_response. cbv zeta. cbn [fst snd sources].
  set (st' := if _INDEX_READY st then st else init st).
  split; [done|].
  assert (length (_top_k_from_vectorstore st' query (clamp_top_k top_k)) <= 10)%nat.
  { etransitivity; [apply top_k_length; [done|lia]|]. lia. }
  unfold present_hits. destruct trace; [done|]. by rewrite length_map.
Qed.

(** *** Initialization *)

Lemma init_ready (st : State) : _INDEX_READY (init st) = true.
Proof.
  unfold init. destruct (_INDEX_READY st) eqn:H; [done|].
  by destruct (_read_all_text_files _ _).
Qed.

(** C8. Once the readiness flag is set, [init] changes nothing of the
    process state (flag, embeddings, vector store, chunk list, documents
    directory); hence two builds in a row leave the state one build leaves. *)
Theorem init_idempotent (st : State) :
  (_INDEX_READY st = true -> init st = st)
  /\ init (init st) = init st.
Proof.
  assert (forall s, _INDEX_READY s = true -> init s = s) as Hready.
  { intros s Hs. unfold init. by rewrite Hs. }
  split; [apply Hready|]. apply Hready, init_ready.
Qed.

(** *** The free-mode answer synthesizer *)

Lemma split_sentences_spec (text s : str) :
  In s (_split_sentences text) -> (2 < length s)%nat /\ starts_solid s.
Proof.
  unfold _split_sentences. rewrite slice_to_take by lia.
  intros Hin.
  assert (In s (List.map strip
            (List.filter (fun s => (2 <? length (strip s))%nat)
               (re_split _SENT_SPLIT_RE text)))) as Hs.
  { apply list_elem_of_In. apply list_elem_of_In in Hin.
    revert Hin. apply subseteq_take. }
  apply in_map_iff in Hs as (s0 & <- & Hs0).
  apply filter_In in Hs0 as [_ Hlen].
  apply Nat.ltb_lt in Hlen. split; [done|].
  apply strip_starts_solid. intros E. rewrite E in Hlen. simpl in Hlen. lia.
Qed.

Lemma split_sentences_length (text : str) : (length (_split_sentences text) <= 50)%nat.
Proof.
  unfold _split_sentences. rewrite slice_to_length by lia. lia.
Qed.

(** What it takes to be among the candidates. *)
Lemma sentence_candidates_spec (query : str) (hits : list Hit) (sc : Q) (s : str) :
  In (sc, s) (sentence_candidates query hits) <->
  exists h, In h (slice_to 5 hits)
    /\ In s (_split_sentences (get_snippet h))
    /\ sc = _score_sentence (token_set query) s
    /\ Qltb 0 sc = true.
Proof.
  unfold sentence_candidates. rewrite in_flat_map. split.
  - intros (h & Hh & Hin). exists h. split; [done|].
    apply in_flat_map in Hin as (s' & Hs' & Hin).
    destruct (Qltb 0 (_score_sentence (token_set query) s')) eqn:Hpos; [|done].
    destruct Hin as [[= <- <-]|[]]. done.
  - intros (h & Hh & Hs & -> & Hpos). exists h. split; [done|].
    apply in_flat_map. exists s. split; [done|]. rewrite Hpos. by left.
Qed.

Lemma sort_candidates_In (cands : list (Q * str)) (c : Q * str) :
  In c (sort_candidates cands) <-> In c cands.
Proof.
  unfold sort_candidates. rewrite <- !list_elem_of_In.
  by rewrite stable_sort_perm.
Qed.

Lemma pick_sentences_In (ms : Z) (cands : list (Q * str)) (picked : list str)
    (seen : gset str) (s : str) :
  In s (pick_sentences ms cands picked seen) ->
  In s picked \/ In s (List.map snd cands).
Proof.
  hide_calls. revert picked seen. induction cands as [|[sc s'] cands IH]; intros picked seen; simpl.
  - by left.
  - destruct (decide (lower s' ∈ seen)).
    + intros H. apply IH in H. tauto.
    + destruct (ms <=? _)%Z.
      * rewrite in_app_iff. simpl. tauto.
      * intros H. apply IH in H. rewrite in_app_iff in H. simpl in H. tauto.
Qed.

Lemma pick_sentences_keeps (ms : Z) (cands : list (Q * str)) (picked : list str)
    (seen : gset str) :
  picked <> [] -> pick_sentences ms cands picked seen <> [].
Proof.
  revert picked seen. induction cands as [|[sc s'] cands IH]; intros picked seen Hne; simpl.
  - done.
  - destruct (decide (lower s' ∈ seen)); [by apply IH|].
    destruct (ms <=? _)%Z.
    + by destruct picked.
    + apply IH. by destruct picked.
Qed.

Lemma pick_sentences_nonempty (ms : Z) (cands : list (Q * str)) :
  cands <> [] -> pick_sentences ms cands [] ∅ <> [].
Proof.
  destruct cands as [|[sc s] cands]; [done|]. intros _. simpl.
  destruct (decide (lower s ∈ (∅ : gset str))) as [Hin|_];
    [by apply not_elem_of_empty in Hin|].
  destruct (ms <=? _)%Z; [done|]. by apply pick_sentences_keeps.
Qed.

Lemma picked_sentences_In (query : str) (hits : list Hit) (ms : Z) (s : str) :
  In s (picked_sentences query hits ms) ->
  exists sc, In (sc, s) (sentence_candidates query hits).
Proof.
  unfold picked_sentences. intros H.
  apply pick_sentences_In in H as [[]|H].
  apply in_map_iff in H as ([sc s'] & <- & H).
  exists sc. by apply sort_candidates_In.
Qed.

Lemma picked_sentences_nonempty (query : str) (hits : list Hit) (ms : Z) :
  sentence_candidates query hits <> [] -> picked_sentences query hits ms <> [].
Proof.
  intros H. apply pick_sentences_nonempty.
  intros E. apply H. unfold sort_candidates in E. by apply stable_sort_nil_inv in E.
Qed.

Lemma joined_answer_nonempty (query : str) (hits : list Hit) (ms : Z) :
  sentence_candidates query hits <> [] -> joined_answer query hits ms <> [].
Proof.
  intros Hc. unfold joined_answer.
  pose proof (picked_sentences_nonempty query hits ms Hc) as Hne.
  destruct (picked_sentences query hits ms) as [|p ps] eqn:Hp; [done|].
  apply strip_of_solid, join_starts_solid.
  assert (In p (picked_sentences query hits ms)) as Hin by (rewrite Hp; by left).
  apply picked_sentences_In in Hin as [sc Hin].
  apply sentence_candidates_spec in Hin as (h & _ & Hs & _).
  by apply split_sentences_spec in Hs as [_ ?].
Qed.

(** [_compose_answer_free] case by case. *)
Lemma compose_answer_cases (query : str) (hits : list Hit) (ms mc : Z) :
  (sentence_candidates query hits = [] ->
   _compose_answer_free query hits ms mc = SENTINEL)
  /\ (sentence_candidates query hits <> [] ->
      _compose_answer_free query hits ms mc =
        if (mc <? Z.of_nat (length (joined_answer query hits ms)))%Z
        then rstrip (slice_to (mc - 1) (joined_answer query hits ms)) ++ [ELLIPSIS]
        else joined_answer query hits ms).
Proof.
  unfold _compose_answer_free. split.
  - by intros ->.
  - intros Hc. pose proof (joined_answer_nonempty query hits ms Hc) as Hj.
    destruct (sentence_candidates query hits) as [|c cs]; [done|].
    unfold finish_answer. fold (joined_answer query hits ms).
    destruct (mc <? _)%Z.
    + by destruct (rstrip _).
    + by destruct (joined_answer query hits ms).
Qed.

Lemma length_penalty_pos (n : nat) :
  log2_nonneg -> (0 < 1 / (1 + log2 (1 + n)))%Q.
Proof.
  intros Hlog. unfold Qdiv. rewrite Qmult_1_l.
  apply Qinv_lt_0_compat.
  apply Qlt_le_trans with 1%Q; [done|].
  rewrite <- (Qplus_0_r 1) at 1.
  apply Qplus_le_r. apply Hlog. lia.
Qed.




(** C2, as the code has it. For [max_chars >= 1]: when no candidate survives
    the answer is the sentinel, whatever [max_chars]; otherwise the answer is
    at most [max_chars] long, and when the stitched text is longer than
    [max_chars] the answer is its first [max_chars - 1] characters, stripped
    on the right, followed by the ellipsis, so that its length is [max_chars]
    less the number of white-space characters stripped at the cut. *)
Theorem truncation_law (query : str) (hits : list Hit) (ms mc : Z) :
  (1 <= mc)%Z ->
  let ans := _compose_answer_free query hits ms mc in
  let joined := joined_answer query hits ms in
  let cut := take (Z.to_nat (mc - 1)) joined in
  (sentence_candidates query hits = [] -> ans = SENTINEL)
  /\ (sentence_candidates query hits <> [] ->
      (Z.of_nat (length ans) <= mc)%Z
      /\ ((mc < Z.of_nat (length joined))%Z ->
          ans = rstrip cut ++ [ELLIPSIS]
          /\ (Z.of_nat (length ans)
              = mc - Z.of_nat (length cut - length (rstrip cut)))%Z)).
Proof.
  intros Hmc. cbv zeta.
  destruct (compose_answer_cases query hits ms mc) as [Hnone Hsome].
  split; [done|]. intros Hc. rewrite (Hsome Hc).
  set (joined := joined_answer query hits ms).
  rewrite slice_to_take by lia.
  pose proof (rstrip_length (take (Z.to_nat (mc - 1)) joined)) as Hr.
  destruct (Z.ltb_spec mc (Z.of_nat (length joined))) as [Hlong|Hshort].
  - assert (length (take (Z.to_nat (mc - 1)) joined) = Z.to_nat (mc - 1)) as Hcut.
    { rewrite length_take. lia. }
    rewrite length_app. simpl. split; [lia|]. intros _. split; [done|]. lia.
  - split; [lia|]. lia.
Qed.

Lemma sentence_candidates_snippets (query : str) (hits1 hits2 : list Hit) :
  List.map get_snippet (slice_to 5 hits1) = List.map get_snippet (slice_to 5 hits2) ->
  sentence_candidates query hits1 = sentence_candidates query hits2.
Proof.
  unfold sentence_candidates.
  generalize (slice_to 5 hits1) (slice_to 5 hits2). clear hits1 hits2.
  induction l as [|h1 l1 IH]; intros [|h2 l2]; simpl; try done.
  intros [= Hh Hl]. rewrite Hh. f_equal. by apply IH.
Qed.

(** C9. The answer is a function of the query, the two limits and the
    snippets of the first five hits, in their order: two runs that agree on
    these, and so two runs on identical arguments, return the same string. *)
Theorem compose_answer_deterministic (query1 query2 : str) (hits1 hits2 : list Hit)
    (ms1 ms2 mc1 mc2 : Z) :
  query1 = query2 -> ms1 = ms2 -> mc1 = mc2 ->
  List.map get_snippet (slice_to 5 hits1) = List.map get_snippet (slice_to 5 hits2) ->
  _compose_answer_free query1 hits1 ms1 mc1 = _compose_answer_free query2 hits2 ms2 mc2.
Proof.
  intros <- <- <- Hsn.
  pose proof (sentence_candidates_snippets query1 _ _ Hsn) as Hc.
  unfold _compose_answer_free, picked_sentences. by rewrite Hc.
Qed.

(** C10. The answer is never the empty string: it is the sentinel when no
    candidate survives (in particular for an empty hit list), and otherwise
    the stitched text, which is not empty, or its truncation, which ends in
    the ellipsis. *)
Theorem compose_answer_never_empty (query : str) (hits : list Hit) (ms mc : Z) :
  _compose_answer_free query hits ms mc <> []
  /\ (hits = [] -> _compose_answer_free query hits ms mc = SENTINEL)
  /\ (sentence_candidates query hits = [] ->
      _compose_answer_free query hits ms mc = SENTINEL)
  /\ (sentence_candidates query hits <> [] ->
      joined_answer query hits ms <> []
      /\ _compose_answer_free query hits ms mc =
           if (mc <? Z.of_nat (length (joined_answer query hits ms)))%Z
           then rstrip (slice_to (mc - 1) (joined_answer query hits ms)) ++ [ELLIPSIS]
           else joined_answer query hits ms).
Proof.
  destruct (compose_answer_cases query hits ms mc) as [Hnone Hsome].
  split; [|split; [|split]].
  - destruct (sentence_candidates query hits) as [|c cs] eqn:Hc.
    + by rewrite Hnone.
    + rewrite Hsome by done.
      pose proof (joined_answer_nonempty query hits ms) as Hj.
      rewrite Hc in Hj. specialize (Hj ltac:(done)).
      destruct (mc <? _)%Z; [|done]. by destruct (rstrip _).
  - intros ->. by apply Hnone.
  - done.
  - intros Hc. split; [by apply joined_answer_nonempty|by apply Hsome].
Qed.

(** *** Matching and the ignored section *)

Lemma match_here_bound (p : list re_item) (prev : option N) (s : str) (n : nat) :
  match_here p prev s = Some n -> (n <= length s)%nat.
Proof.
  revert prev s n. induction p as [|item p IH]; intros prev s n.
  - simpl. intros [= <-]. lia.
  - destruct item as [| |cls|cls|cls|cls]; simpl.
    + destruct (at_bol prev); [apply IH|done].
    + destruct (at_eol s); [apply IH|done].
    + destruct prev as [c|]; [|done]. destruct (cls c); [apply IH|done].
    + destruct s as [|c s]; [done|]. destruct (cls c); [|done].
      destruct (match_here p (Some c) s) as [m|] eqn:E; [|done].
      simpl. intros [= <-]. apply IH in E. simpl. lia.
    + revert prev n. induction s as [|c s IHs]; intros prev n.
      * apply IH.
      * destruct (cls c); [|apply IH].
        match goal with |- context [?f (Some c) s] => destruct (f (Some c) s) as [m|] eqn:E end.
        -- intros [= <-]. apply IHs in E. simpl. lia.
        -- apply IH.
    + revert prev n. induction s as [|c s IHs]; intros prev n.
      * destruct (match_here p prev []) eqn:E; [|done]. intros [= <-]. by apply IH in E.
      * destruct (match_here p prev (c :: s)) eqn:E.
        { intros [= <-]. by apply IH in E. }
        destruct (cls c); [|done].
        match goal with |- context [?f (Some c) s] => destruct (f (Some c) s) as [m|] eqn:E' end;
          [|done].
        simpl. intros [= <-]. apply IHs in E'. simpl. lia.
Qed.

Lemma re_search_from_spec (p : list re_item) (s pre : str) :
  match re_search_from p (last pre) (length pre) s with
  | Some (a, b) =>
      (length pre <= a <= b)%nat /\ (b <= length (pre ++ s))%nat
      /\ matches_at p (pre ++ s) a (b - a)
      /\ forall i, (length pre <= i < a)%nat -> no_match_at p (pre ++ s) i
  | None =>
      forall i, (length pre <= i <= length (pre ++ s))%nat -> no_match_at p (pre ++ s) i
  end.
Proof.
  assert (forall (pre s : str), char_before (pre ++ s) (length pre) = last pre
                                /\ drop (length pre) (pre ++ s) = s) as Hat.
  { intros pre' s'. unfold char_before.
    by rewrite take_app_length, drop_app_length. }
  revert pre. induction s as [|c s IH]; intros pre; rewrite length_app; simpl.
  - destruct (match_here p (last pre) []) as [n|] eqn:E.
    + pose proof (match_here_bound _ _ _ _ E) as Hn. simpl in Hn.
      assert (n = 0)%nat as -> by lia.
      rewrite Nat.add_0_r. repeat split; try lia.
      unfold matches_at. destruct (Hat pre []) as [-> ->].
      by rewrite Nat.sub_diag.
    + intros i Hi.
      assert (i = length pre) as -> by lia.
      unfold no_match_at. by destruct (Hat pre []) as [-> ->].
  - destruct (match_here p (last pre) (c :: s)) as [n|] eqn:E.
    + pose proof (match_here_bound _ _ _ _ E) as Hn.
      simpl in Hn. repeat split; try lia.
      unfold matches_at. destruct (Hat pre (c :: s)) as [-> ->].
      by replace (length pre + n - length pre)%nat with n by lia.
    + specialize (IH (pre ++ [c])).
      rewrite last_snoc, length_app in IH. simpl in IH.
      rewrite Nat.add_1_r in IH. rewrite <- (assoc_L (++)) in IH. simpl in IH.
      assert (no_match_at p (pre ++ c :: s) (length pre)) as Hhere.
      { unfold no_match_at. by destruct (Hat pre (c :: s)) as [-> ->]. }
      destruct (re_search_from p (Some c) (S (length pre)) s) as [[a b]|].
      * destruct IH as (Ha & Hb & Hm & Hleft).
        rewrite length_app in Hb. simpl in Hb.
        split; [lia|]. split; [lia|]. split; [done|].
        intros i Hi. destruct (decide (i = length pre)) as [->|]; [done|].
        apply Hleft. lia.
      * intros i Hi. destruct (decide (i = length pre)) as [->|]; [done|].
        apply IH. rewrite length_app. simpl. lia.
Qed.

Lemma re_search_spec (p : list re_item) (text : str) :
  match re_search p text with
  | Some (a, b) =>
      (a <= b <= length text)%nat
      /\ matches_at p text a (b - a)
      /\ forall i, (i < a)%nat -> no_match_at p text i
  | None => forall i, (i <= length text)%nat -> no_match_at p text i
  end.
Proof.
  pose proof (re_search_from_spec p text []) as H. simpl in H.
  unfold re_search. destruct (re_search_from p None 0 text) as [[a b]|].
  - destruct H as (Ha & Hb & Hm & Hleft). repeat split; try lia; try done.
    intros i Hi. apply Hleft. lia.
  - intros i Hi. apply H. lia.
Qed.

(** C7, as the code has it. Without a line that matches the marker the text
    comes back unchanged. Otherwise one region is cut: it starts at the first
    match of the marker (no match starts earlier) and runs up to the start of
    the leftmost section header found after the marker line, or to the end of
    the text when there is none; what is left is stripped of surrounding
    white space. Regions that start at a later marker stay. *)
Theorem strip_ignored_sections_first_region (text : str) :
  match re_search _PROMPTS_HEADER_RE text with
  | None => _strip_ignored_sections text = text
  | Some (start, m_end) =>
      exists stop,
        (start <= m_end <= stop)%nat /\ (stop <= length text)%nat
        /\ matches_at _PROMPTS_HEADER_RE text start (m_end - start)
        /\ (forall i, (i < start)%nat -> no_match_at _PROMPTS_HEADER_RE text i)
        /\ (stop = length text
              /\ re_search _SECTION_HEADER_RE (drop m_end text) = None
            \/ exists n_end,
                 re_search _SECTION_HEADER_RE (drop m_end text)
                 = Some ((stop - m_end)%nat, n_end))
        /\ _strip_ignored_sections text = strip (take start text ++ drop stop text)
  end.
Proof.
  unfold _strip_ignored_sections, slice_from.
  pose proof (re_search_spec _PROMPTS_HEADER_RE text) as Hm.
  destruct (re_search _PROMPTS_HEADER_RE text) as [[start m_end]|]; [|done].
  destruct Hm as (Hb & Hat & Hleft).
  pose proof (re_search_spec _SECTION_HEADER_RE (drop m_end text)) as Hn.
  destruct (re_search _SECTION_HEADER_RE (drop m_end text)) as [[n_start n_end]|].
  - destruct Hn as (Hnb & _ & _). rewrite length_drop in Hnb.
    exists (m_end + n_start)%nat. repeat split; try lia; try done.
    right. exists n_end. by replace (m_end + n_start - m_end)%nat with n_start by lia.
  - exists (length text). repeat split; try lia; try done. by left.
Qed.

(** *** Ingestion and the seeded sample *)

Lemma expand_globs_empty (folder pattern_csv : str) :
  _expand_globs folder ∅ pattern_csv = [].
Proof.
  unfold _expand_globs.
  set (pats := List.filter _ _).
  assert (List.flat_map (glob_in folder ∅) pats = []) as ->.
  { induction pats as [|p pats IH]; [done|]. simpl. rewrite IH.
    unfold glob_in. by rewrite dom_empty_L, elements_empty. }
  simpl. by rewrite elements_empty.
Qed.

Lemma sample_name_kept :
  lower_on_ascii ->
  startswith (py "_") SAMPLE_NAME || contains (py "prompts") (lower SAMPLE_NAME) = false.
Proof.
  intros Hlower. rewrite Hlower; [by vm_compute|].
  apply (bool_decide_unpack _). by vm_compute.
Qed.

(** With no candidate path at all, the sample is written and is the one
    document returned. *)
Lemma seed_on_no_candidates (dir : Folder) :
  lower_on_ascii ->
  isfile dir (path_join _DOCS_DIR (py "my_document.txt")) = false ->
  _expand_globs _DOCS_DIR dir _DOCS_GLOB = [] ->
  _read_all_text_files _DOCS_DIR dir
  = (<[SAMPLE_NAME := RegularFile (Some SAMPLE_TEXT)]> dir,
     [(path_join _DOCS_DIR SAMPLE_NAME, SAMPLE_TEXT)]).
Proof.
  intros Hlower Hpref Hglob. unfold _read_all_text_files.
  rewrite Hpref, Hglob. f_equal.
  unfold read_candidates. cbn [List.flat_map].
  assert (basename (path_join _DOCS_DIR SAMPLE_NAME) = SAMPLE_NAME) as Hbase
    by (by vm_compute).
  unfold read_text. rewrite Hbase, (sample_name_kept Hlower).
  by rewrite lookup_insert_eq.
Qed.

(** The scenario of the empty directory on a first run. *)
Lemma first_run_empty_directory :
  lower_on_ascii ->
  _read_all_text_files _DOCS_DIR ∅
  = ({[SAMPLE_NAME := RegularFile (Some SAMPLE_TEXT)]},
     [(path_join _DOCS_DIR SAMPLE_NAME, SAMPLE_TEXT)]).
Proof.
  intros Hlower. rewrite seed_on_no_candidates; try done.
Qed.

(** Without a single document the free-mode index is empty, whatever the
    splitter does. *)
Lemma init_free_mode_no_docs (st : State) :
  _free_chunks (_init_free_mode [] st) = [].
Proof. done. Qed.

(** ** Further properties of the code *)

(** *** Tokens *)

Lemma flush_chars (P : N -> Prop) (cur : str) :
  Forall P cur -> Forall (Forall P) (flush cur).
Proof.
  intros H. destruct cur as [|c cur]; [constructor|].
  constructor; [|constructor]. by apply Forall_rev.
Qed.

Lemma findall_tokens_chars (P : N -> Prop) (s cur : str) :
  Forall P cur -> Forall P s -> Forall (Forall P) (findall_tokens cur s).
Proof.
  revert cur. induction s as [|c s IH]; intros cur Hcur Hs; simpl.
  - by apply flush_chars.
  - inversion Hs as [|? ? Hc Hs']; subst.
    destruct (is_token_char c).
    + apply IH; [by constructor|done].
    + apply Forall_app. split; [by apply flush_chars|]. by apply IH.
Qed.

Lemma findall_tokens_valid (s cur : str) :
  Forall (fun c => is_token_char c = true) cur ->
  Forall (fun t => t <> [] /\ Forall (fun c => is_token_char c = true) t)
    (findall_tokens cur s).
Proof.
  assert (forall cur, Forall (fun c => is_token_char c = true) cur ->
            Forall (fun t => t <> [] /\ Forall (fun c => is_token_char c = true) t)
              (flush cur)) as Hflush.
  { intros [|c cur'] H; [constructor|]. constructor; [|constructor].
    split; [|by apply Forall_rev].
    simpl. intros E. by apply app_eq_nil in E as [_ ?]. }
  revert cur. induction s as [|c s IH]; intros cur Hcur; simpl.
  - by apply Hflush.
  - destruct (is_token_char c) eqn:Hc.
    + apply IH. by constructor.
    + apply Forall_app. split; [by apply Hflush|]. by apply IH.
Qed.

(** A run of token characters in front of the text is read into the current
    token. *)
Lemma findall_tokens_run (t rest cur : str) :
  Forall (fun c => is_token_char c = true) t ->
  findall_tokens cur (t ++ rest) = findall_tokens (rev t ++ cur) rest.
Proof.
  revert cur. induction t as [|c t IH]; intros cur Ht; [done|].
  inversion Ht as [|? ? Hc Ht']; subst. simpl. rewrite Hc.
  rewrite IH by done. by rewrite <- (assoc_L (++)).
Qed.

Lemma findall_tokens_join (toks : list str) :
  Forall (fun t => t <> [] /\ Forall (fun c => is_token_char c = true) t) toks ->
  findall_tokens [] (join (py " ") toks) = toks.
Proof.
  induction 1 as [|t toks [Hne Ht] Htoks IH]; [done|].
  assert (flush (rev t) = [t]) as Hflush.
  { destruct (rev t) as [|c r] eqn:E.
    - rewrite <- (rev_involutive t), E in Hne. done.
    - unfold flush. by rewrite <- E, rev_involutive. }
  destruct toks as [|t' toks].
  - pose proof (findall_tokens_run t [] [] Ht) as Hrun.
    rewrite !app_nil_r in Hrun. simpl in *. by rewrite Hrun.
  - change (join (py " ") (t :: t' :: toks))
      with (t ++ 32 :: join (py " ") (t' :: toks)).
    rewrite findall_tokens_run by done. rewrite app_nil_r.
    cbn [findall_tokens]. change (is_token_char 32) with false. cbv iota.
    by rewrite Hflush, IH.
Qed.

(** X3. Every token is a non-empty string of characters of the class
    [[a-zA-Z0-9']], and a text whose lower-cased form has no such character
    has no token. *)
Theorem simple_tokenize_tokens (text : str) :
  Forall (fun t => t <> [] /\ Forall (fun c => is_token_char c = true) t)
    (_simple_tokenize text)
  /\ (Forall (fun c => is_token_char c = false) (lower text) ->
      _simple_tokenize text = []).
Proof.
  unfold _simple_tokenize. split; [by apply findall_tokens_valid|].
  generalize (lower text). intros s.
  induction 1 as [|c s Hc Hs IH]; [done|]. simpl. by rewrite Hc.
Qed.

Lemma ascii_lower_char_fixed (c : N) :
  c < 128 -> ascii_lower_char c < 128
             /\ ascii_lower_char (ascii_lower_char c) = ascii_lower_char c.
Proof.
  intros Hc. unfold ascii_lower_char.
  destruct ((65 <=? c) && (c <=? 90)) eqn:E.
  - apply andb_true_iff in E as [E1 E2].
    apply N.leb_le in E1, E2. split; [lia|].
    destruct ((65 <=? c + 32) && (c + 32 <=? 90)) eqn:E'; [|done].
    apply andb_true_iff in E' as [_ E']. apply N.leb_le in E'. lia.
  - by rewrite E.
Qed.

(** X4. Tokenization is stable on ASCII text: the tokens joined by single
    spaces tokenize to the same tokens. *)
Theorem simple_tokenize_round_trip (text : str) :
  lower_on_ascii ->
  Forall (fun c => c < 128) text ->
  _simple_tokenize (join (py " ") (_simple_tokenize text)) = _simple_tokenize text.
Proof.
  intros Hlower Hascii.
  set (P := fun c : N => c < 128 /\ ascii_lower_char c = c).
  assert (Forall (Forall P) (_simple_tokenize text)) as Htoks.
  { unfold _simple_tokenize. rewrite (Hlower _ Hascii).
    apply findall_tokens_chars; [constructor|].
    unfold ascii_lower. induction Hascii as [|c s Hc Hs IH]; [constructor|].
    simpl. constructor; [|done]. by apply ascii_lower_char_fixed. }
  assert (forall toks, Forall (Forall P) toks -> Forall P (join (py " ") toks)) as Hjoin.
  { induction 1 as [|t toks Ht Hts IH]; [constructor|].
    destruct toks as [|t' toks]; [done|].
    change (join (py " ") (t :: t' :: toks))
      with (t ++ 32 :: join (py " ") (t' :: toks)).
    apply Forall_app. split; [done|]. constructor; [|done].
    split; [by vm_compute|done]. }
  specialize (Hjoin _ Htoks).
  unfold _simple_tokenize at 1.
  rewrite Hlower by (eapply Forall_impl; [done|by intros c [? _]]).
  assert (ascii_lower (join (py " ") (_simple_tokenize text))
          = join (py " ") (_simple_tokenize text)) as ->.
  { unfold ascii_lower. induction Hjoin as [|c s [_ Hc] Hs IH]; [done|].
    simpl. by rewrite Hc, IH. }
  apply findall_tokens_join. apply findall_tokens_valid. constructor.
Qed.

(** *** Scores *)

(** X1. The overlap score does not depend on which argument is the query. *)
Theorem keyword_overlap_score_sym (query text : str) :
  _keyword_overlap_score query text = _keyword_overlap_score text query.
Proof.
  hide_calls. unfold _keyword_overlap_score.
  rewrite (comm_L (∩) (token_set query)), (comm_L (∪) (token_set query)).
  destruct (decide (token_set query = ∅ \/ token_set text = ∅)),
    (decide (token_set text = ∅ \/ token_set query = ∅)); tauto.
Qed.

(** X2. Two texts with the same non-empty token set score 1: word order,
    repetition and punctuation do not count. *)
Theorem keyword_overlap_score_same_tokens (query text : str) :
  token_set query = token_set text ->
  token_set query <> ∅ ->
  (_keyword_overlap_score query text == 1)%Q.
Proof.
  hide_calls. intros Heq Hne. unfold _keyword_overlap_score.
  rewrite <- Heq. rewrite decide_False by tauto.
  rewrite (idemp_L (∩)), (idemp_L (∪)).
  assert (0 < size (token_set query))%nat as Hpos.
  { destruct (size (token_set query)) eqn:E; [|lia].
    by apply size_empty_inv, leibniz_equiv in E. }
  unfold ratio, Qeq. simpl. rewrite Z.mul_1_r, Z.mul_1_l.
  destruct (size (token_set query)); [lia|]. rewrite <- Pos.of_nat_succ. lia.
Qed.

(** X5. A sentence score lies between 0 and 1. *)
Theorem score_sentence_range (qtoks : gset str) (s : str) :
  log2_nonneg ->
  (0 <= _score_sentence qtoks s <= 1)%Q.
Proof.
  intros Hlog. unfold _score_sentence.
  destruct (decide (token_set s = ∅)); [split; [apply Qle_refl|discriminate]|].
  set (j := if Nat.eqb _ 0 then 0%Q else _).
  set (p := (1 / (1 + log2 (1 + length s)))%Q).
  assert (0 <= j <= 1)%Q as [Hj0 Hj1].
  { subst j. destruct (Nat.eqb_spec (size (qtoks ∪ token_set s)) 0).
    - split; [apply Qle_refl|discriminate].
    - split; [apply ratio_nonneg|].
      apply ratio_le_1; [apply inter_union_size|lia]. }
  assert (0 <= p <= 1)%Q as [Hp0 Hp1].
  { subst p. split; [apply Qlt_le_weak, length_penalty_pos, Hlog|].
    assert (1 <= 1 + log2 (1 + length s))%Q as H1.
    { rewrite <- (Qplus_0_r 1) at 1. apply Qplus_le_r, Hlog. lia. }
    apply Qle_shift_div_r; [by apply Qlt_le_trans with 1%Q|].
    by rewrite Qmult_1_l. }
  split.
  - rewrite <- (Qplus_0_r 0).
    apply Qplus_le_compat; apply Qmult_le_0_compat; try done; discriminate.
  - apply Qle_trans with (1 * (9 # 10) + 1 * (1 # 10))%Q; [|discriminate].
    apply Qplus_le_compat; apply Qmult_le_compat_r; try done; discriminate.
Qed.

(** *** Sentences *)

Lemma lstrip_idemp (s : str) : lstrip (lstrip s) = lstrip s.
Proof.
  destruct (lstrip s) as [|c r] eqn:E; [done|].
  apply lstrip_cons_nonspace. by apply lstrip_head in E.
Qed.

Lemma rstrip_idemp (s : str) : rstrip (rstrip s) = rstrip s.
Proof. unfold rstrip. by rewrite rev_involutive, lstrip_idemp. Qed.

Lemma strip_idemp (s : str) : strip (strip s) = strip s.
Proof.
  unfold strip at 2 3. destruct (lstrip s) as [|c r] eqn:E; [done|].
  pose proof (lstrip_head _ _ _ E) as Hc.
  rewrite rstrip_cons_nonspace by done. unfold strip.
  rewrite lstrip_cons_nonspace by done.
  by rewrite rstrip_cons_nonspace, rstrip_idemp.
Qed.

Lemma strip_length (s : str) : (length (strip s) <= length s)%nat.
Proof.
  unfold strip. etransitivity; [apply rstrip_length|apply lstrip_length].
Qed.

(** X6. [_split_sentences] returns at most 50 sentences, each longer than two
    characters and free of white space at both ends. *)
Theorem split_sentences_invariant (text : str) :
  (length (_split_sentences text) <= 50)%nat
  /\ Forall (fun s => (2 < length s)%nat /\ strip s = s) (_split_sentences text).
Proof.
  split; [apply split_sentences_length|].
  apply List.Forall_forall. intros s Hin.
  split; [by apply split_sentences_spec in Hin as [? _]|].
  unfold _split_sentences in Hin. rewrite slice_to_take in Hin by lia.
  apply list_elem_of_In in Hin. apply (subseteq_take 50) in Hin.
  apply list_elem_of_In, in_map_iff in Hin as (s0 & <- & _).
  apply strip_idemp.
Qed.

(** The second loop of [_compose_answer_free], from any point of its run:
    what was picked stays in front, what is added is taken in order from the
    candidates, no lower-cased text is taken twice, and the loop stops at
    [max_sentences]. *)
Lemma pick_sentences_invariant (ms : Z) (cands : list (Q * str)) (picked : list str)
    (seen : gset str) :
  NoDup (List.map lower picked) ->
  (forall s, In s picked -> lower s ∈ seen) ->
  exists added,
    pick_sentences ms cands picked seen = picked ++ added
    /\ sublist added (List.map snd cands)
    /\ NoDup (List.map lower (picked ++ added))
    /\ (Z.of_nat (length (picked ++ added))
        <= Z.max ms (Z.of_nat (length picked) + 1))%Z.
Proof.
  hide_calls.
  revert picked seen. induction cands as [|[sc s] cands IH]; intros picked seen Hnd Hseen.
  - exists []. simpl. rewrite app_nil_r. repeat split; try done. lia.
  - simpl. destruct (decide (lower s ∈ seen)) as [Hin|Hnin].
    + destruct (IH picked seen Hnd Hseen) as (added & -> & Hsub & Hnd' & Hlen).
      exists added. repeat split; try done. by apply sublist_cons.
    + assert (NoDup (List.map lower (picked ++ [s]))) as Hnd1.
      { rewrite map_app. simpl. apply NoDup_app. repeat split; [done| |apply NoDup_singleton].
        intros k Hk Hk'. apply list_elem_of_In in Hk.
        apply in_map_iff in Hk as (s' & <- & Hs').
        apply list_elem_of_singleton in Hk'. apply Hnin. rewrite <- Hk'.
        by apply Hseen. }
      destruct (Z.leb_spec ms (Z.of_nat (length (picked ++ [s])))) as [Hstop|Hgo].
      * exists [s]. repeat split; try done.
        -- apply sublist_skip, sublist_nil_l.
        -- rewrite length_app in *. simpl in *. lia.
      * destruct (IH (picked ++ [s]) ({[lower s]} ∪ seen) Hnd1) as (added & -> & Hsub & Hnd' & Hlen).
        { intros s' Hs'. apply in_app_iff in Hs' as [Hs'|[<-|[]]]; [|set_solver].
          apply Hseen in Hs'. set_solver. }
        exists (s :: added). rewrite <- (assoc_L (++)) in *. simpl in *.
        repeat split; try done; [by apply sublist_skip|].
        rewrite !length_app in *. simpl in *. lia.
Qed.

(** X7. The sentences of an answer are taken in ranking order from the
    scored candidates, no two of them have the same lower-cased text, and
    there are at most [max_sentences] of them (one when [max_sentences] is
    below 1). *)
Theorem picked_sentences_invariant (query : str) (hits : list Hit) (ms : Z) :
  sublist (picked_sentences query hits ms)
    (List.map snd (sort_candidates (sentence_candidates query hits)))
  /\ NoDup (List.map lower (picked_sentences query hits ms))
  /\ (Z.of_nat (length (picked_sentences query hits ms)) <= Z.max ms 1)%Z.
Proof.
  unfold picked_sentences.
  destruct (pick_sentences_invariant ms
              (sort_candidates (sentence_candidates query hits)) [] ∅)
    as (added & -> & Hsub & Hnd & Hlen); [constructor|by intros s []|].
  simpl in *. repeat split; [done|done|lia].
Qed.

(** *** The ignored section *)

(** X8. [_strip_ignored_sections] never returns more text than it was given,
    and what it returns after a cut has no white space at either end. *)
Theorem strip_ignored_sections_shrinks (text : str) :
  (length (_strip_ignored_sections text) <= length text)%nat
  /\ (re_search _PROMPTS_HEADER_RE text <> None ->
      strip (_strip_ignored_sections text) = _strip_ignored_sections text).
Proof.
  unfold _strip_ignored_sections, slice_from.
  pose proof (re_search_spec _PROMPTS_HEADER_RE text) as Hm.
  destruct (re_search _PROMPTS_HEADER_RE text) as [[start m_end]|]; [|by split].
  destruct Hm as (Hb & _ & _).
  split; [|intros _; apply strip_idemp].
  etransitivity; [apply strip_length|].
  rewrite length_app, length_take, length_drop.
  pose proof (re_search_spec _SECTION_HEADER_RE (drop m_end text)) as Hn.
  destruct (re_search _SECTION_HEADER_RE (drop m_end text)) as [[n_start n_end]|]; lia.
Qed.

(** *** Candidate files *)

Lemma str_ltb_asym (a b : str) : str_ltb a b = true -> str_ltb b a = false.
Proof.
  revert b. induction a as [|x a IH]; intros [|y b]; simpl; try done.
  intros H. apply orb_true_iff in H as [H|H].
  - apply N.ltb_lt in H.
    apply orb_false_iff. split; [apply N.ltb_ge; lia|].
    apply andb_false_iff. left. apply N.eqb_neq. lia.
  - apply andb_true_iff in H as [Hxy H]. apply N.eqb_eq in Hxy as ->.
    rewrite N.ltb_irrefl, N.eqb_refl. simpl. by apply IH.
Qed.

Lemma str_ltb_total (a b : str) :
  str_ltb a b = false -> str_ltb b a = false -> a = b.
Proof.
  revert b. induction a as [|x a IH]; intros [|y b]; simpl; try done.
  intros H1 H2.
  apply orb_false_iff in H1 as [H1 H1'], H2 as [H2 H2'].
  apply N.ltb_ge in H1, H2. assert (x = y) as -> by lia.
  rewrite N.eqb_refl in H1', H2'. simpl in *. f_equal. by apply IH.
Qed.

Lemma Sorted_strict {A} (R R' : A -> A -> Prop) (l : list A) :
  (forall a b, R a b -> a <> b -> R' a b) ->
  NoDup l -> Sorted R l -> Sorted R' l.
Proof.
  intros HR Hnd Hs. induction Hs as [|a l Hl IH Hhd]; constructor.
  - apply IH. by apply NoDup_cons_1_2 in Hnd.
  - destruct Hhd as [|b l' Hab]; constructor. apply HR; [done|].
    intros ->. apply NoDup_cons_1_1 in Hnd. apply Hnd. by left.
Qed.

Lemma glob_in_In (folder : str) (dir : Folder) (pat p : str) :
  In p (glob_in folder dir pat) <->
  exists name,
    p = path_join folder name /\ is_Some (dir !! name)
    /\ (startswith [46] pat || negb (startswith [46] name)) && fnmatch pat name = true.
Proof.
  unfold glob_in. rewrite in_map_iff. split.
  - intros (name & <- & Hin). apply filter_In in Hin as [Hin Hm].
    exists name. repeat split; [|done].
    apply list_elem_of_In, elem_of_elements in Hin. by apply elem_of_dom.
  - intros (name & -> & Hsome & Hm). exists name. split; [done|].
    apply filter_In. split; [|done].
    apply list_elem_of_In, elem_of_elements. by apply elem_of_dom.
Qed.

Lemma expand_globs_In (folder : str) (dir : Folder) (pattern_csv p : str) :
  In p (_expand_globs folder dir pattern_csv) <->
  exists pat name,
    In pat (glob_patterns pattern_csv)
    /\ p = path_join folder name /\ is_Some (dir !! name)
    /\ (startswith [46] pat || negb (startswith [46] name)) && fnmatch pat name = true.
Proof.
  unfold _expand_globs. fold (glob_patterns pattern_csv).
  rewrite <- list_elem_of_In, stable_sort_perm, elem_of_elements,
    elem_of_list_to_set, list_elem_of_In, in_flat_map.
  split.
  - intros (pat & Hpat & Hin). apply glob_in_In in Hin as (name & ? & ? & ?).
    by exists pat, name.
  - intros (pat & name & Hpat & ? & ? & ?). exists pat. split; [done|].
    apply glob_in_In. by exists name.
Qed.

(** X9. For patterns that are plain file-name patterns (literal characters,
    [*] and [?]: no bracket expression, no path separator, not a directory
    name), [_expand_globs] on the documents directory lists each matching
    path once, in strictly ascending code-point order, and lists exactly the
    entries of the folder whose name matches one of the patterns, hidden
    names only for a pattern that starts with a dot. *)
Theorem expand_globs_sorted_exact (dir : Folder) (pattern_csv : str) :
  Forall plain_pattern (glob_patterns pattern_csv) ->
  Sorted (fun a b => str_ltb a b = true) (_expand_globs _DOCS_DIR dir pattern_csv)
  /\ NoDup (_expand_globs _DOCS_DIR dir pattern_csv)
  /\ forall p,
       In p (_expand_globs _DOCS_DIR dir pattern_csv) <->
       exists pat name,
         In pat (glob_patterns pattern_csv) /\ plain_pattern pat
         /\ p = path_join _DOCS_DIR name /\ is_Some (dir !! name)
         /\ (startswith [46] pat || negb (startswith [46] name)) && fnmatch pat name = true.
Proof.
  intros Hplain.
  assert (NoDup (_expand_globs _DOCS_DIR dir pattern_csv)) as Hnd.
  { unfold _expand_globs. rewrite stable_sort_perm. apply NoDup_elements. }
  split; [|split; [done|]].
  - eapply Sorted_strict; [|done|apply stable_sort_sorted, str_ltb_asym].
    intros a b Hba Hne. simpl in Hba.
    destruct (str_ltb a b) eqn:Hab; [done|].
    exfalso. apply Hne. by apply str_ltb_total.
  - intros p. rewrite expand_globs_In. split.
    + intros (pat & name & Hpat & Hp & Hsome & Hm). exists pat, name.
      repeat split; try done; by apply (proj1 (List.Forall_forall _ _) Hplain pat Hpat).
    + intros (pat & name & Hpat & _ & Hp & Hsome & Hm). by exists pat, name.
Qed.

(** *** Documents read *)

Lemma read_candidates_In (dir : Folder) (candidates : list str) (p c : str) :
  In (p, c) (read_candidates dir candidates) <->
  In p candidates
  /\ startswith (py "_") (basename p) || contains (py "prompts") (lower (basename p)) = false
  /\ read_text dir p = Some c.
Proof.
  unfold read_candidates. rewrite in_flat_map. split.
  - intros (p' & Hp' & Hin).
    destruct (startswith _ _ || contains _ _) eqn:Hname; [done|].
    destruct (read_text dir p') as [c'|] eqn:Hread; [|done].
    destruct Hin as [[= <- <-]|[]]. done.
  - intros (Hp & Hname & Hread). exists p. split; [done|].
    rewrite Hname, Hread. by left.
Qed.

Lemma read_all_text_files_In (folder : str) (dir : Folder) (p c : str) :
  In (p, c) (_read_all_text_files folder dir).2 ->
  startswith (py "_") (basename p) || contains (py "prompts") (lower (basename p)) = false
  /\ read_text (_read_all_text_files folder dir).1 p = Some c.
Proof.
  unfold _read_all_text_files.
  destruct (if isfile dir _ then _ else _) as [|p0 cands]; cbn [fst snd];
    intros Hin; by apply read_candidates_In in Hin as (_ & Hname & Hread).
Qed.

(** X10. A document [_read_all_text_files] returns never comes from a helper
    file (a name that starts with an underscore or contains "prompts" in any
    case), and its content is what the file holds after the call. *)
Theorem read_all_text_files_skips_helpers (folder : str) (dir : Folder) (p c : str) :
  In (p, c) (_read_all_text_files folder dir).2 ->
  startswith (py "_") (basename p) = false
  /\ contains (py "prompts") (lower (basename p)) = false
  /\ read_text (_read_all_text_files folder dir).1 p = Some c.
Proof.
  intros Hin. apply read_all_text_files_In in Hin as [Hname Hread].
  by apply orb_false_iff in Hname as [? ?].
Qed.



(** X12. When [my_document.txt] is a readable file of the folder, it is the
    one document returned, whatever else the folder holds, and nothing is
    written. *)
Theorem preferred_document_only (dir : Folder) (c : str) :
  lower_on_ascii ->
  dir !! py "my_document.txt" = Some (RegularFile (Some c)) ->
  _read_all_text_files _DOCS_DIR dir = (dir, [(py "data/my_document.txt", c)]).
Proof.
  intros Hlower Hfile. unfold _read_all_text_files.
  assert (basename (path_join _DOCS_DIR (py "my_document.txt")) = py "my_document.txt")
    as Hbase by (by vm_compute).
  unfold isfile. rewrite Hbase, Hfile. f_equal.
  unfold read_candidates. cbn [List.flat_map]. unfold read_text.
  rewrite Hbase, Hfile.
  rewrite Hlower by (apply (bool_decide_unpack _); by vm_compute).
  by vm_compute.
Qed.

(** *** The index *)

Lemma make_chunks_In (docs : list (str * str)) (d : Document) :
  In d (make_chunks docs) ->
  exists content,
    In (doc_source d, content) docs
    /\ In (page_content d) (split_text (_strip_ignored_sections content)).
Proof.
  unfold make_chunks. rewrite in_flat_map.
  intros ([path content] & Hdoc & Hin).
  apply in_map_iff in Hin as (txt & <- & Htxt). by exists content.
Qed.

(** X13. After a free-mode build every chunk of the index carries the path of
    a file of the folder that is not a helper file, and its text is a piece of
    that file's content with the ignored section cut out; the embeddings and
    the vector store are left as they were. *)
Theorem init_free_mode_provenance (st : State) (src txt : str) :
  USE_OPENAI = false ->
  _INDEX_READY st = false ->
  _embeddings (init st) = _embeddings st
  /\ _vectorstore (init st) = _vectorstore st
  /\ (In (src, txt) (_free_chunks (init st)) ->
      exists content,
        read_text (docs_dir (init st)) src = Some content
        /\ startswith (py "_") (basename src) = false
        /\ contains (py "prompts") (lower (basename src)) = false
        /\ In txt (split_text (_strip_ignored_sections content))).
Proof.
  intros Hmode Hready. unfold init. rewrite Hready, Hmode.
  pose proof (read_all_text_files_In _DOCS_DIR (docs_dir st)) as Hdocs.
  destruct (_read_all_text_files _DOCS_DIR (docs_dir st)) as [dir' docs].
  cbn in *. split; [done|]. split; [done|]. intros Hin.
  apply in_map_iff in Hin as (d & [= <- <-] & Hd).
  apply make_chunks_In in Hd as (content & Hdoc & Htxt).
  apply Hdocs in Hdoc as [Hname Hread]. apply orb_false_iff in Hname as [? ?].
  by exists content.
Qed.

(** X22. A folder in which no visible name ends in [.txt] or [.md] (an empty
    folder, or one with other files only) is seeded: the sample is written
    and is the one document returned. *)
Theorem seeded_without_text_files (dir : Folder) :
  lower_on_ascii ->
  (forall name, is_Some (dir !! name) ->
     negb (startswith [46] name)
     && (fnmatch (py "*.txt") name || fnmatch (py "*.md") name) = false) ->
  _read_all_text_files _DOCS_DIR dir
  = (<[SAMPLE_NAME := RegularFile (Some SAMPLE_TEXT)]> dir,
     [(path_join _DOCS_DIR SAMPLE_NAME, SAMPLE_TEXT)]).
Proof.
  intros Hlower Hnone. apply seed_on_no_candidates; [done| |].
  - unfold isfile.
    change (basename (path_join _DOCS_DIR (py "my_document.txt")))
      with (py "my_document.txt").
    destruct (dir !! py "my_document.txt") as [e|] eqn:E; [|done].
    specialize (Hnone (py "my_document.txt") ltac:(by rewrite E)).
    by vm_compute in Hnone.
  - destruct (_expand_globs _DOCS_DIR dir _DOCS_GLOB) as [|p ps] eqn:Hglob; [done|].
    assert (In p (_expand_globs _DOCS_DIR dir _DOCS_GLOB)) as Hin
      by (rewrite Hglob; by left).
    apply expand_globs_In in Hin as (pat & name & Hpat & _ & Hsome & Hm).
    specialize (Hnone name Hsome).
    change (glob_patterns _DOCS_GLOB) with [py "*.txt"; py "*.md"] in Hpat.
    destruct Hpat as [<-|[<-|[]]];
      apply andb_true_iff in Hm as [Hvis Hfn];
      change (negb (startswith [46] name) = true) in Hvis;
      rewrite Hvis, Hfn in Hnone;
      by rewrite ?orb_true_r in Hnone.
Qed.

(** *** Hits *)

Lemma slice_to_300_length (s : str) : (length (slice_to 300 s) <= 300)%nat.
Proof. rewrite slice_to_length by lia. lia. Qed.

Lemma top_k_hit_shape (st : State) (query : str) (k : Z) (h : Hit) :
  In h (_top_k_from_vectorstore st query k) ->
  is_Some (source h)
  /\ (exists s, snippet h = Some s /\ (length s <= 300)%nat)
  /\ (USE_OPENAI && _FAISS_OK = false -> is_Some (score h)).
Proof.
  unfold _top_k_from_vectorstore, lexical_top_k.
  destruct (USE_OPENAI && _FAISS_OK) eqn:Hmode; [destruct (_vectorstore st)|];
    intros Hin; apply in_map_iff in Hin as (e & <- & _);
    try (destruct e as [[src txt] sc]); simpl;
    (split; [done|split; [eexists; split; [done|apply slice_to_300_length]|done]]).
Qed.

(** X14. Every source [get_rag_response] returns names where it comes from
    and carries a snippet of at most 300 characters; without tracing it has
    no score, and with tracing every hit of the keyword retrieval has one. *)
Theorem query_sources_shape (st : State) (query : str) (top_k : Z) (trace : bool)
    (req : option str) (h : Hit) :
  In h (sources (get_rag_response st query top_k trace req).2) ->
  is_Some (source h)
  /\ (exists s, snippet h = Some s /\ (length s <= 300)%nat)
  /\ (trace = false -> score h = None)
  /\ (trace = true -> USE_OPENAI && _FAISS_OK = false -> is_Some (score h)).
Proof.
  unfold get_rag_response. cbv zeta. cbn [snd sources].
  unfold present_hits. destruct trace.
  - intros Hin. apply top_k_hit_shape in Hin as (Hsrc & Hsn & Hsc).
    repeat split; try done.
  - intros Hin. apply in_map_iff in Hin as (h0 & <- & Hin).
    apply top_k_hit_shape in Hin as (Hsrc & Hsn & _).
    repeat split; try done.
Qed.

Lemma sort_scored_length (scored : list (str * str * Q)) :
  length (sort_scored scored) = length scored.
Proof. unfold sort_scored. by rewrite stable_sort_perm. Qed.

(** X15. Keyword retrieval for a count [k] returns [k] hits, or the whole
    corpus when it has fewer chunks; and asking for more hits leaves the
    earlier ones as they are. *)
Theorem lexical_top_k_count_prefix (st : State) (query : str) (k k' : Z) :
  USE_OPENAI && _FAISS_OK = false ->
  (0 <= k <= k')%Z ->
  length (_top_k_from_vectorstore st query k)
  = Nat.min (Z.to_nat k) (length (fallback_corpus st))
  /\ _top_k_from_vectorstore st query k
     = take (Z.to_nat k) (_top_k_from_vectorstore st query k').
Proof.
  intros Hmode Hk. rewrite !top_k_lexical_branch by done.
  unfold lexical_top_k. rewrite !slice_to_take by lia. split.
  - rewrite length_map, length_take, sort_scored_length.
    unfold score_corpus. by rewrite length_map.
  - rewrite firstn_map, take_take. f_equal. f_equal. lia.
Qed.

(** *** Queries *)

Lemma compose_answer_bounds (query : str) (hits : list Hit) (ms mc : Z) :
  (36 <= mc)%Z ->
  _compose_answer_free query hits ms mc <> []
  /\ (Z.of_nat (length (_compose_answer_free query hits ms mc)) <= mc)%Z.
Proof.
  intros Hmc.
  destruct (compose_answer_cases query hits ms mc) as [Hnone Hsome].
  destruct (sentence_candidates query hits) as [|c cs] eqn:Hc.
  - rewrite Hnone by done. split; [done|].
    change (Z.of_nat (length SENTINEL)) with 36%Z. lia.
  - rewrite Hsome by done.
    pose proof (joined_answer_nonempty query hits ms) as Hj.
    rewrite Hc in Hj. specialize (Hj ltac:(done)).
    destruct (Z.ltb_spec mc (Z.of_nat (length (joined_answer query hits ms)))).
    + split; [by destruct (rstrip _)|].
      rewrite length_app, slice_to_take by lia. simpl.
      pose proof (rstrip_length (take (Z.to_nat (mc - 1)) (joined_answer query hits ms))) as Hr.
      rewrite length_take in Hr. lia.
    + split; [done|lia].
Qed.

Lemma get_rag_response_free (st : State) (query : str) (top_k : Z) (trace : bool)
    (req : option str) :
  USE_OPENAI = false ->
  answer (get_rag_response st query top_k trace req).2 <> []
  /\ (length (answer (get_rag_response st query top_k trace req).2) <= 600)%nat
  /\ (sources (get_rag_response st query top_k trace req).2 = [] ->
      answer (get_rag_response st query top_k trace req).2 = SENTINEL)
  /\ (length (sources (get_rag_response st query top_k trace req).2)
      <= Z.to_nat (clamp_top_k top_k))%nat.
Proof.
  intros Hmode. unfold get_rag_response. cbv zeta. cbn [snd answer sources].
  rewrite Hmode.
  pose proof (top_k_lexical_branch (if _INDEX_READY st then st else init st) query
                (clamp_top_k top_k)) as Hlex.
  rewrite Hmode in Hlex. specialize (Hlex eq_refl).
  pose proof (lexical_top_k_length
                (fallback_corpus (if _INDEX_READY st then st else init st)) query
                (clamp_top_k top_k)) as Hcount.
  rewrite <- Hlex in Hcount. clear Hlex.
  pose proof (clamp_top_k_range top_k) as Hk. specialize (Hcount ltac:(lia)).
  revert Hcount.
  generalize (_top_k_from_vectorstore (if _INDEX_READY st then st else init st)
                query (clamp_top_k top_k)).
  intros hits Hcount.
  assert (length (present_hits trace hits) = length hits) as Hlen.
  { unfold present_hits. destruct trace; [done|]. by rewrite length_map. }
  rewrite Hlen. destruct hits as [|h hs].
  - split; [done|]. split; [|done].
    change (length SENTINEL) with 36%nat. lia.
  - match goal with |- context [_compose_answer_free ?q ?hs ?ms 600] =>
      destruct (compose_answer_bounds q hs ms 600 ltac:(lia)) as [Hne Hl] end.
    split; [done|]. split; [lia|]. split; [|done].
    unfold present_hits. by destruct trace.
Qed.

(** X16. In free mode the answer of a query is never empty and never longer
    than 600 characters; it is the sentinel when nothing was retrieved. *)
Theorem free_mode_answer_bounds (st : State) (query : str) (top_k : Z) (trace : bool)
    (req : option str) :
  USE_OPENAI = false ->
  answer (get_rag_response st query top_k trace req).2 <> []
  /\ (length (answer (get_rag_response st query top_k trace req).2) <= 600)%nat
  /\ (sources (get_rag_response st query top_k trace req).2 = [] ->
      answer (get_rag_response st query top_k trace req).2 = SENTINEL).
Proof.
  intros Hmode.
  destruct (get_rag_response_free st query top_k trace req Hmode) as (? & ? & ? & _).
  done.
Qed.

Lemma get_rag_response_state (st : State) (query : str) (top_k : Z) (trace : bool)
    (req : option str) :
  (get_rag_response st query top_k trace req).1 = init st.
Proof.
  unfold get_rag_response. cbv zeta. cbn [fst].
  unfold init. by destruct (_INDEX_READY st).
Qed.

(** X17. A query leaves the state one build leaves, and a later query does
    not change it again: the index is built by the first query at the latest
    and never rebuilt. *)
Theorem query_builds_once (st : State) (query query' : str) (top_k top_k' : Z)
    (trace trace' : bool) (req req' : option str) :
  (get_rag_response st query top_k trace req).1 = init st
  /\ (get_rag_response (get_rag_response st query top_k trace req).1
        query' top_k' trace' req').1
     = (get_rag_response st query top_k trace req).1.
Proof.
  rewrite !get_rag_response_state. split; [done|].
  unfold init at 1. by rewrite init_ready.
Qed.

(** *** The endpoint *)

Lemma valid_params_spec (query : str) (top_k : Z) :
  valid_params query top_k = true ->
  (3 <= length query <= 512)%nat /\ (1 <= top_k <= 10)%Z.
Proof.
  unfold valid_params. intros Hv.
  apply andb_true_iff in Hv as [Hv H4]. apply andb_true_iff in Hv as [Hv H3].
  apply andb_true_iff in Hv as [H1 H2].
  apply Nat.leb_le in H1, H2. apply Z.leb_le in H3, H4. lia.
Qed.

Lemma query_rag_system_backend (st : State) (query : str) (top_k : Z)
    (trace : bool) (rid : str) :
  valid_params query top_k = true ->
  (3 <= length (strip query))%nat ->
  query_rag_system st query top_k trace rid =
    let r := get_rag_response st (strip query) top_k trace (Some rid) in
    match answer r.2 with
    | [] => (r.1, inl Http503)
    | ans =>
        (r.1, inr {| resp_request_id := rid;
                     resp_query := strip query;
                     resp_answer := ans;
                     resp_sources := sources r.2 |})
    end.
Proof.
  intros Hv Hlen. unfold query_rag_system. rewrite Hv. simpl.
  destruct (Nat.ltb_spec (length (strip query)) 3) as [|_]; [lia|].
  by destruct (get_rag_response st (strip query) top_k trace (Some rid)).
Qed.

Lemma endpoint_422 (st : State) (query : str) (top_k : Z) (trace : bool) (rid : str) :
  valid_params query top_k = false \/ (length (strip query) < 3)%nat ->
  query_rag_system st query top_k trace rid = (st, inl Http422).
Proof.
  intros H. unfold query_rag_system.
  destruct (valid_params query top_k); [|done]. simpl.
  destruct H as [|H]; [done|]. apply Nat.ltb_lt in H. by rewrite H.
Qed.

(** X19. A successful response never carries an empty answer; its query is
    the trimmed request, between 3 and 512 characters long, its identifier
    is the one drawn for the request, and the state is the one a build
    leaves. *)
Theorem endpoint_success_shape (st st' : State) (query : str) (top_k : Z)
    (trace : bool) (rid : str) (resp : QueryResponse) :
  query_rag_system st query top_k trace rid = (st', inr resp) ->
  resp_answer resp <> []
  /\ resp_query resp = strip query
  /\ (3 <= length (resp_query resp) <= 512)%nat
  /\ resp_request_id resp = rid
  /\ st' = init st.
Proof.
  intros Hok.
  destruct (valid_params query top_k) eqn:Hv;
    [|by rewrite endpoint_422 in Hok by (by left)].
  destruct (Nat.ltb_spec (length (strip query)) 3) as [Hshort|Hlen];
    [by rewrite endpoint_422 in Hok by (by right)|].
  rewrite query_rag_system_backend in Hok by done. cbv zeta in Hok.
  rewrite get_rag_response_state in Hok.
  destruct (answer _) as [|c a]; [done|].
  injection Hok as <- <-. cbn. repeat split; try done.
  apply valid_params_spec in Hv. pose proof (strip_length query). lia.
Qed.

(** X20. In free mode a request within the declared bounds whose trimmed
    query has at least three characters is never answered 503: it gets an
    answer of at most 600 characters and at most [top_k] sources. *)
Theorem endpoint_free_mode_succeeds (st : State) (query : str) (top_k : Z)
    (trace : bool) (rid : str) :
  USE_OPENAI = false ->
  valid_params query top_k = true ->
  (3 <= length (strip query))%nat ->
  exists resp,
    query_rag_system st query top_k trace rid = (init st, inr resp)
    /\ (length (resp_answer resp) <= 600)%nat
    /\ (length (resp_sources resp) <= Z.to_nat top_k)%nat.
Proof.
  intros Hmode Hv Hlen.
  rewrite query_rag_system_backend by done. cbv zeta.
  rewrite get_rag_response_state.
  destruct (get_rag_response_free st (strip query) top_k trace (Some rid) Hmode)
    as (Hne & Hl & _ & Hsrc).
  assert (clamp_top_k top_k = top_k) as Hk.
  { apply valid_params_spec in Hv. unfold clamp_top_k. lia. }
  rewrite Hk in Hsrc.
  destruct (answer _) as [|c a] eqn:Ha; [done|].
  eexists. split; [done|]. cbn. by split.
Qed.

End Rag.

(** ** Concrete runs *)

Lemma log2_floor_nonneg : log2_nonneg log2_floor.
Proof.
  intros n _. unfold log2_floor.
  change 0%Q with (inject_Z 0). rewrite <- Zle_Qle. apply Z.log2_nonneg.
Qed.

Lemma ascii_lower_on_ascii : lower_on_ascii ascii_lower.
Proof. by intros s _. Qed.

Lemma first_k_search_at_most_k : at_most_k_neighbours first_k_search.
Proof.
  intros chunks query k Hk. unfold first_k_search. rewrite length_take. lia.
Qed.

Example tokenize_example :
  _simple_tokenize ascii_lower (py "What do Polar-bears eat? It's seals!")
  = [py "what"; py "do"; py "polar"; py "bears"; py "eat"; py "it's"; py "seals"].
Proof. by vm_compute. Qed.

Example overlap_example :
  _keyword_overlap_score ascii_lower (py "polar bears") (py "Polar bears hunt seals")
  = (2 # 4)%Q.
Proof. by vm_compute. Qed.

Example split_sentences_example :
  _split_sentences (text_of [py "Hi.  Hello there!   Ok? yes it is."; py " Fine. a.  "])
  = [py "Hi."; py "Hello there!"; py "Ok?"; py "yes it is."; py "Fine."].
Proof. by vm_compute. Qed.

(** The two header patterns on inputs whose spans were read off [re]. *)
Example header_search_examples :
  re_search _PROMPTS_HEADER_RE two_prompt_sections = Some (0, 16)%nat
  /\ re_search _SECTION_HEADER_RE (py "SECTION: ") = Some (0, 9)%nat
  /\ re_search _SECTION_HEADER_RE (text_of [py "SECTION:"; py " "; []]) = Some (0, 10)%nat
  /\ re_search _SECTION_HEADER_RE (text_of [py "SECTION:"; []; []]) = None
  /\ re_search _PROMPTS_HEADER_RE (py "SECTION: ") = None
  /\ re_search _PROMPTS_HEADER_RE
       (text_of [py "x"; []; py "=="] ++ [NEWLINE; 383]
        ++ text_of [py "ection:"; py "prompts zz"; py "q"])
     = Some (2, 25)%nat
  /\ re_search _PROMPTS_HEADER_RE (text_of [py "a"; py "SECT"] ++ [304] ++ py "ON: PROMPTS")
     = Some (2, 18)%nat
  /\ re_search _PROMPTS_HEADER_RE
       (text_of [py "  "; py " = SECTION:PROMPTSxyz"; []; []; py "SECTION: A"])
     = Some (0, 24)%nat.
Proof. by vm_compute. Qed.

Example strip_ignored_sections_example :
  _strip_ignored_sections
    (text_of [py "intro"; py "=== SECTION: Prompts (ui) ==="; py "ask me";
              py "SECTION: DATA"; py "real"])
  = text_of [py "intro"; py "SECTION: DATA"; py "real"].
Proof. by vm_compute. Qed.

Example read_all_text_files_example :
  _expand_globs _DOCS_DIR mixed_dir _DOCS_GLOB
  = [py "data/_x.txt"; py "data/a.md"; py "data/b.txt"; py "data/bad.txt";
     py "data/sub.txt"; py "data/ui_Prompts.md"]
  /\ (_read_all_text_files ascii_lower _DOCS_DIR mixed_dir).2
     = [(py "data/a.md", py "ay"); (py "data/b.txt", py "bee")].
Proof. by vm_compute. Qed.

(** The polar-bear scenario: the sentence that shares tokens with the query
    comes first and the answer is not the sentinel. The overlap term of the
    first sentence alone, 0.9 * 2/12, exceeds the largest score a sentence
    without overlap can reach, 0.1. *)
Example polar_bear_scenario :
  let corpus := [(py "data/doc.txt",
                  py "Polar bears rely on sea ice to hunt seals. They are strong swimmers.")] in
  let hits := lexical_top_k ascii_lower round4_half_even corpus (py "What do polar bears eat?") 4 in
  List.map snippet hits
  = [Some (py "Polar bears rely on sea ice to hunt seals. They are strong swimmers.")]
  /\ picked_sentences ascii_lower log2_floor (py "What do polar bears eat?") hits 3
     = [py "Polar bears rely on sea ice to hunt seals."; py "They are strong swimmers."].
Proof. by vm_compute. Qed.

(** Three sentences of equal score: the sort keeps their order, the second is
    skipped as a duplicate of the first up to case, and two are picked. With
    [max_sentences = 0] one sentence is still picked, the bound being tested
    after the sentence is appended. *)
Example duplicate_sentence_example :
  let hits := [hit_of "Hello big world"; hit_of "HELLO BIG WORLD"; hit_of "Hello, dear all"] in
  _compose_answer_free ascii_lower log2_floor (py "hello") hits 2 600
  = py "Hello big world Hello, dear all"
  /\ picked_sentences ascii_lower log2_floor (py "hello") hits 0 = [py "Hello big world"].
Proof. by vm_compute. Qed.

(** [max_chars = 0]: the slice bound is -1, which drops the last character
    only. *)
Example max_chars_zero_example :
  _compose_answer_free ascii_lower log2_floor (py "hello") [hit_of "Hello big world"] 3 0
  = py "Hello big worl" ++ [ELLIPSIS].
Proof. by vm_compute. Qed.

(** A first run on an empty directory, then a query asking for 50 hits. *)
Example first_run_example :
  let '(st, res) :=
    get_rag_response ascii_lower log2_floor one_chunk first_k_search round4_half_even no_chat false false
      (fresh_state ∅) (py "polar bears") 50 false None in
  _INDEX_READY st = true
  /\ _free_chunks st = [(py "data/sample_polar_bears.txt", SAMPLE_TEXT)]
  /\ dom (docs_dir st) = {[ SAMPLE_NAME ]}
  /\ List.map source (sources res) = [Some (py "data/sample_polar_bears.txt")]
  /\ mode res = py "free".
Proof. by vm_compute. Qed.

(** *** Witnesses *)


Lemma truncation_law_witness :
  (1 <= 7)%Z
  /\ (Z.of_nat (length (_compose_answer_free ascii_lower log2_floor (py "hello")
                          [hit_of "Hello big world"] 3 7)) <= 7)%Z.
Proof.
  split; [lia|].
  apply (truncation_law ascii_lower log2_floor (py "hello") [hit_of "Hello big world"] 3 7);
    [lia|by vm_compute].
Defined.

Lemma lexical_retrieval_top_k_witness :
  exists ranked : list (str * str),
    ranked_by (fun chunk => jaccard (token_set ascii_lower (py "bears"))
                              (token_set ascii_lower (snd chunk)))
      [(py "a.txt", py "seals"); (py "b.txt", py "bears"); (py "c.txt", py "ice")]
      ranked
    /\ _top_k_from_vectorstore ascii_lower first_k_search round4_half_even false false
         {| _INDEX_READY := true; _embeddings := false; _vectorstore := NoStore;
            _free_chunks := [(py "a.txt", py "seals"); (py "b.txt", py "bears");
                             (py "c.txt", py "ice")];
            docs_dir := ∅ |}
         (py "bears") 2
       = List.map
           (fun chunk =>
              {| source := Some (fst chunk);
                 snippet := Some (take 300 (snd chunk));
                 score := Some (round4_half_even
                                  (jaccard (token_set ascii_lower (py "bears"))
                                     (token_set ascii_lower (snd chunk)))) |})
           (take 2 ranked).
Proof.
  apply (lexical_retrieval_top_k ascii_lower first_k_search round4_half_even false false
           {| _INDEX_READY := true; _embeddings := false; _vectorstore := NoStore;
              _free_chunks := [(py "a.txt", py "seals"); (py "b.txt", py "bears");
                               (py "c.txt", py "ice")];
              docs_dir := ∅ |}
           (py "bears") 2); [reflexivity|lia].
Defined.

Lemma query_top_k_clamped_witness :
  at_most_k_neighbours first_k_search
  /\ exists k,
       k = 10%Z
       /\ sources
            (get_rag_response ascii_lower log2_floor one_chunk first_k_search
               round4_half_even no_chat false false (fresh_state ∅) (py "polar bears")
               50 true None).2
          = _top_k_from_vectorstore ascii_lower first_k_search round4_half_even false false
              (get_rag_response ascii_lower log2_floor one_chunk first_k_search
                 round4_half_even no_chat false false (fresh_state ∅) (py "polar bears")
                 50 true None).1
              (py "polar bears") k
       /\ (length (sources
                     (get_rag_response ascii_lower log2_floor one_chunk first_k_search
                        round4_half_even no_chat false false (fresh_state ∅)
                        (py "polar bears") 50 true None).2)
           <= 10)%nat.
Proof.
  split; [exact first_k_search_at_most_k|].
  destruct (query_top_k_clamped ascii_lower log2_floor one_chunk first_k_search
              round4_half_even no_chat false false (fresh_state ∅) (py "polar bears")
              50 true None first_k_search_at_most_k)
    as (k & _ & _ & Hhigh & Hsrc & Hlen).
  exists k. split; [apply Hhigh; lia|]. split; [exact Hsrc|exact Hlen].
Defined.

Lemma compose_answer_deterministic_witness :
  _compose_answer_free ascii_lower log2_floor (py "hello")
    [{| source := Some (py "a.txt"); snippet := Some (py "Hello big world"); score := Some 1%Q |}]
    3 600
  = _compose_answer_free ascii_lower log2_floor (py "hello")
      [hit_of "Hello big world"] 3 600.
Proof.
  apply compose_answer_deterministic; reflexivity.
Defined.

(** *** Where the code departs from the specification *)


(** C2, the sentence as the specification has it, fails. The stitched text,
    15 characters, is truncated for [max_chars = 7], and the answer is 6
    characters long because the cut falls after a space; with no hit the
    answer is the sentinel, 36 characters long; and for [max_chars = 0] the
    answer is 15 characters long. *)
Lemma truncated_answer_shorter_than_max_chars :
  joined_answer ascii_lower log2_floor (py "hello") [hit_of "Hello big world"] 3
  = py "Hello big world"
  /\ _compose_answer_free ascii_lower log2_floor (py "hello") [hit_of "Hello big world"] 3 7
     = py "Hello" ++ [ELLIPSIS]
  /\ length (_compose_answer_free ascii_lower log2_floor (py "hello")
               [hit_of "Hello big world"] 3 7) = 6%nat
  /\ _compose_answer_free ascii_lower log2_floor (py "hello") [] 3 7 = SENTINEL
  /\ length SENTINEL = 36%nat
  /\ length (_compose_answer_free ascii_lower log2_floor (py "hello")
               [hit_of "Hello big world"] 3 0) = 15%nat.
Proof. by vm_compute. Qed.

(** C7, the sentence as the specification has it, fails: only the first
    marked region is cut, and the marker of the second one is still found in
    the result. *)
Lemma second_prompts_section_survives :
  _strip_ignored_sections two_prompt_sections
  = text_of [py "SECTION: DATA"; py "bar"; py "SECTION: PROMPTS"; py "baz"]
  /\ re_search _PROMPTS_HEADER_RE (_strip_ignored_sections two_prompt_sections)
     = Some (18, 34)%nat.
Proof. by vm_compute. Qed.

(** C3. A directory that holds only a helper file: the file matches the
    patterns, so the candidate list is not empty and nothing is seeded; the
    loop then skips it, no document is returned, and the index built from it
    is empty. *)
Theorem helper_only_directory_not_seeded :
  _expand_globs _DOCS_DIR helper_only_dir _DOCS_GLOB = [py "data/_notes.txt"]
  /\ _read_all_text_files ascii_lower _DOCS_DIR helper_only_dir = (helper_only_dir, [])
  /\ _free_chunks (init ascii_lower one_chunk false false (fresh_state helper_only_dir)) = []
  /\ docs_dir (init ascii_lower one_chunk false false (fresh_state helper_only_dir))
     = helper_only_dir.
Proof. by vm_compute. Qed.

(** ** Further properties: across modes, and concrete instances *)

(** X21. Without FAISS, retrieval in OpenAI mode is the keyword retrieval of
    free mode: after a build from the same folder both modes return the same
    hits for every query and count. *)
Theorem keyword_retrieval_mode_independent (lower : str -> str)
    (split_text : str -> list str)
    (similarity_search : list Document -> str -> Z -> list Document)
    (round4 : Q -> Q) (faiss : bool) (st : State) (query : str) (k : Z) :
  _INDEX_READY st = false ->
  _top_k_from_vectorstore lower similarity_search round4 true false
    (init lower split_text true false st) query k
  = _top_k_from_vectorstore lower similarity_search round4 false faiss
      (init lower split_text false faiss st) query k.
Proof.
  intros Hready. unfold _top_k_from_vectorstore, init. rewrite Hready.
  destruct (_read_all_text_files lower _DOCS_DIR (docs_dir st)) as [dir' docs].
  cbn. unfold fallback_corpus. cbn. done.
Qed.

Lemma keyword_retrieval_mode_independent_witness :
  _top_k_from_vectorstore ascii_lower first_k_search round4_half_even true false
    (init ascii_lower one_chunk true false (fresh_state ∅)) (py "polar bears") 3
  = _top_k_from_vectorstore ascii_lower first_k_search round4_half_even false true
      (init ascii_lower one_chunk false true (fresh_state ∅)) (py "polar bears") 3.
Proof.
  apply (keyword_retrieval_mode_independent ascii_lower one_chunk first_k_search
           round4_half_even true
           (fresh_state ∅) (py "polar bears") 3).
  reflexivity.
Defined.

Lemma keyword_overlap_score_same_tokens_witness :
  (_keyword_overlap_score ascii_lower (py "bears, polar") (py "Polar bears! Polar?") == 1)%Q.
Proof.
  apply keyword_overlap_score_same_tokens; by vm_compute.
Defined.

Lemma simple_tokenize_round_trip_witness :
  _simple_tokenize ascii_lower
    (join (py " ") (_simple_tokenize ascii_lower (py "Hello, World! It's 42.")))
  = _simple_tokenize ascii_lower (py "Hello, World! It's 42.").
Proof.
  apply simple_tokenize_round_trip; [exact ascii_lower_on_ascii|].
  apply (bool_decide_unpack _). by vm_compute.
Defined.

Lemma score_sentence_range_witness :
  log2_nonneg log2_floor
  /\ (0 <= _score_sentence ascii_lower log2_floor (token_set ascii_lower (py "hello"))
             (py "Hello big world") <= 1)%Q.
Proof.
  split; [exact log2_floor_nonneg|].
  apply score_sentence_range, log2_floor_nonneg.
Defined.

Lemma read_all_text_files_skips_helpers_witness :
  In (py "data/a.md", py "ay") (_read_all_text_files ascii_lower _DOCS_DIR mixed_dir).2
  /\ read_text (_read_all_text_files ascii_lower _DOCS_DIR mixed_dir).1 (py "data/a.md")
     = Some (py "ay").
Proof.
  assert (In (py "data/a.md", py "ay")
            (_read_all_text_files ascii_lower _DOCS_DIR mixed_dir).2) as Hin
    by (vm_compute; by left).
  split; [exact Hin|].
  apply (read_all_text_files_skips_helpers ascii_lower _DOCS_DIR mixed_dir _ _ Hin).
Defined.

Lemma preferred_document_only_witness :
  _read_all_text_files ascii_lower _DOCS_DIR
    (<[py "my_document.txt" := RegularFile (Some (py "Main text."))]> mixed_dir)
  = (<[py "my_document.txt" := RegularFile (Some (py "Main text."))]> mixed_dir,
     [(py "data/my_document.txt", py "Main text.")]).
Proof.
  apply preferred_document_only; [exact ascii_lower_on_ascii|].
  apply lookup_insert_eq.
Defined.

Lemma seeded_without_text_files_witness :
  _read_all_text_files ascii_lower _DOCS_DIR
    ({[ py "report.pdf" := RegularFile (Some (py "pdf")); py ".notes.txt" := RegularFile None ]})
  = (<[SAMPLE_NAME := RegularFile (Some SAMPLE_TEXT)]>
       ({[ py "report.pdf" := RegularFile (Some (py "pdf"));
           py ".notes.txt" := RegularFile None ]}),
     [(path_join _DOCS_DIR SAMPLE_NAME, SAMPLE_TEXT)]).
Proof.
  apply seeded_without_text_files; [exact ascii_lower_on_ascii|].
  intros name Hsome. apply elem_of_dom in Hsome.
  rewrite dom_insert_L, dom_singleton_L in Hsome.
  apply elem_of_union in Hsome as [Hn|Hn]; apply elem_of_singleton in Hn;
    rewrite Hn; by vm_compute.
Defined.

Lemma expand_globs_sorted_exact_witness :
  Forall plain_pattern (glob_patterns _DOCS_GLOB)
  /\ In (py "data/a.md") (_expand_globs _DOCS_DIR mixed_dir _DOCS_GLOB)
  /\ NoDup (_expand_globs _DOCS_DIR mixed_dir _DOCS_GLOB).
Proof.
  assert (Forall plain_pattern (glob_patterns _DOCS_GLOB)) as Hplain.
  { change (glob_patterns _DOCS_GLOB) with [py "*.txt"; py "*.md"].
    repeat constructor; try discriminate;
      apply List.Forall_forall; intros c Hc; vm_compute in Hc;
      repeat (destruct Hc as [<-|Hc]; [split; discriminate|]); destruct Hc. }
  split; [exact Hplain|].
  destruct (expand_globs_sorted_exact mixed_dir _DOCS_GLOB Hplain) as (_ & Hnd & Hin).
  split; [|exact Hnd].
  apply Hin. exists (py "*.md"), (py "a.md").
  split; [vm_compute; tauto|].
  split; [exact (proj1 (List.Forall_forall _ _) Hplain (py "*.md") ltac:(vm_compute; tauto))|].
  split; [reflexivity|]. split; [by eexists|]. by vm_compute.
Defined.


Lemma init_free_mode_provenance_witness :
  In (py "data/sample_polar_bears.txt", SAMPLE_TEXT)
     (_free_chunks (init ascii_lower one_chunk false false (fresh_state ∅)))
  /\ exists content,
       read_text (docs_dir (init ascii_lower one_chunk false false (fresh_state ∅)))
         (py "data/sample_polar_bears.txt") = Some content
       /\ startswith (py "_") (basename (py "data/sample_polar_bears.txt")) = false
       /\ contains (py "prompts") (ascii_lower (basename (py "data/sample_polar_bears.txt")))
          = false
       /\ In SAMPLE_TEXT (one_chunk (_strip_ignored_sections content)).
Proof.
  assert (In (py "data/sample_polar_bears.txt", SAMPLE_TEXT)
            (_free_chunks (init ascii_lower one_chunk false false (fresh_state ∅)))) as Hin
    by (vm_compute; by left).
  split; [exact Hin|].
  destruct (init_free_mode_provenance ascii_lower one_chunk false false (fresh_state ∅)
              (py "data/sample_polar_bears.txt") SAMPLE_TEXT eq_refl eq_refl)
    as (_ & _ & Hprov).
  exact (Hprov Hin).
Defined.

Lemma query_sources_shape_witness :
  Forall (fun h => score h = None)
    (sources (get_rag_response ascii_lower log2_floor one_chunk first_k_search round4_half_even no_chat
                false false (fresh_state ∅) (py "polar bears") 4 false None).2).
Proof.
  apply List.Forall_forall. intros h Hin.
  by apply (query_sources_shape ascii_lower log2_floor one_chunk first_k_search round4_half_even no_chat
              false false (fresh_state ∅) (py "polar bears") 4 false None h Hin).
Defined.

Lemma lexical_top_k_count_prefix_witness :
  (0 <= 1 <= 2)%Z
  /\ length (_top_k_from_vectorstore ascii_lower first_k_search round4_half_even false false
               (init ascii_lower one_chunk false false (fresh_state mixed_dir))
               (py "bee") 1) = 1%nat.
Proof.
  split; [lia|].
  destruct (lexical_top_k_count_prefix ascii_lower first_k_search round4_half_even false false
              (init ascii_lower one_chunk false false (fresh_state mixed_dir))
              (py "bee") 1 2 eq_refl ltac:(lia)) as [Hlen _].
  rewrite Hlen. by vm_compute.
Defined.

Lemma free_mode_answer_bounds_witness :
  (length (answer (get_rag_response ascii_lower log2_floor one_chunk first_k_search round4_half_even no_chat
                     false false (fresh_state ∅) (py "polar bears") 4 false None).2)
   <= 600)%nat.
Proof.
  apply (free_mode_answer_bounds ascii_lower log2_floor one_chunk first_k_search round4_half_even no_chat
           false false (fresh_state ∅) (py "polar bears") 4 false None eq_refl).
Defined.

Lemma endpoint_success_shape_witness :
  match query_rag_system ascii_lower log2_floor one_chunk first_k_search round4_half_even no_chat false false
          (fresh_state ∅) (py "  polar bears  ") 4 false (py "r-2") with
  | (_, inr resp) => resp_query resp = py "polar bears" /\ resp_answer resp <> []
  | (_, inl _) => False
  end.
Proof.
  destruct (query_rag_system ascii_lower log2_floor one_chunk first_k_search round4_half_even no_chat
              false false (fresh_state ∅) (py "  polar bears  ") 4 false (py "r-2"))
    as [st' [e|resp]] eqn:E.
  - vm_compute in E. discriminate E.
  - apply endpoint_success_shape in E as (Hans & Hq & _).
    split; [rewrite Hq; by vm_compute|exact Hans].
Defined.

Lemma endpoint_free_mode_succeeds_witness :
  exists resp,
    query_rag_system ascii_lower log2_floor one_chunk first_k_search round4_half_even no_chat false false
      (fresh_state ∅) (py "  polar bears  ") 4 false (py "r-2")
    = (init ascii_lower one_chunk false false (fresh_state ∅), inr resp)
    /\ (length (resp_answer resp) <= 600)%nat
    /\ (length (resp_sources resp) <= Z.to_nat 4)%nat.
Proof.
  apply endpoint_free_mode_succeeds; [reflexivity|by vm_compute|vm_compute; lia].
Defined.
